(** * QLogger: sinks, the registry and the write / rotate protocol

    A shallow embedding of [src/QLogger/qlogger.cpp] and [qlogger.h].

    - [LogLevel] is the C++ enum, kept as its underlying integer so that
      out-of-range values exist, as they do in C++.
    - [QLoggerWriter] (the sink) is a record of its five private members.
    - [QLoggerManager] (the registry) owns a
      [QMap<QString, QSharedPointer<QLoggerWriter>>]; a null shared pointer
      is [None].  Every writer is created by [new] inside [add] and is
      referenced from exactly one entry, so an entry stores its writer.
    - The outside world (file system, console of [qDebug], wall clock) is
      the record [World]; every method is a function that takes and
      returns it.
    - What belongs to Qt and not to this repository is either a parameter
      ([toString] of [QDateTime], the build flag [QT_DEBUG]) or a small
      model written from Qt's documentation ([QFileInfo], [QFile],
      [QString::arg]). *)

From Stdlib Require Import ZArith Lia Ascii String DecimalString.
From stdpp Require Import base gmap strings list.


(** ** Strings (QString) *)

Definition isEmpty (s : string) : bool :=
  match s with EmptyString => true | String _ _ => false end.

Fixpoint contains (c : ascii) (s : string) : bool :=
  match s with
  | EmptyString => false
  | String a r => Ascii.eqb a c || contains c r
  end.

(** The part of [s] before the first [c] (all of [s] when there is none). *)
Fixpoint beforeFirst (c : ascii) (s : string) : string :=
  match s with
  | EmptyString => EmptyString
  | String a r => if Ascii.eqb a c then EmptyString else String a (beforeFirst c r)
  end.

(** The part of [s] after the first [c] (empty when there is none). *)
Fixpoint afterFirst (c : ascii) (s : string) : string :=
  match s with
  | EmptyString => EmptyString
  | String a r => if Ascii.eqb a c then r else afterFirst c r
  end.

(** The part of [s] before the last [c] (empty when there is none). *)
Fixpoint beforeLast (c : ascii) (s : string) : string :=
  match s with
  | EmptyString => EmptyString
  | String a r => if contains c r then String a (beforeLast c r) else EmptyString
  end.

(** The part of [s] after the last [c] (all of [s] when there is none). *)
Fixpoint afterLast (c : ascii) (s : string) : string :=
  match s with
  | EmptyString => EmptyString
  | String a r =>
      if contains c r then afterLast c r
      else if Ascii.eqb a c then r else s
  end.

Fixpoint endsWith (c : ascii) (s : string) : bool :=
  match s with
  | EmptyString => false
  | String a EmptyString => Ascii.eqb a c
  | String _ r => endsWith c r
  end.

(** *** QString::arg

    [s.arg(a)] replaces every occurrence of the lowest numbered place
    marker of [s] ([%1] .. [%99], optionally written [%L1]) by [a]; a
    string without marker is returned as it is.  The scanner below follows
    Qt's: a percent sign, an optional [L], one digit and a second digit
    when there is one. *)

Inductive Piece : Type :=
  | Lit (c : ascii)
  | Marker (n : nat) (text : string).

Inductive ArgState : Type :=
  | Plain
  | Percent (loc : bool)
  | Digit (loc : bool) (d : nat).

Definition digitValue (c : ascii) : option nat :=
  let n := nat_of_ascii c in
  if (48 <=? n)%nat && (n <=? 57)%nat then Some (n - 48)%nat else None.

Definition percentText (loc : bool) : string :=
  if loc then "%L" else "%".

Definition digitChar (d : nat) : ascii := ascii_of_nat (48 + d).

Definition percentLits (loc : bool) : list Piece :=
  if loc then [Lit "%"%char; Lit "L"%char] else [Lit "%"%char].

Fixpoint scanArg (st : ArgState) (s : string) : list Piece :=
  match s with
  | EmptyString =>
      match st with
      | Plain => []
      | Percent loc => percentLits loc
      | Digit loc d => [Marker d (percentText loc +:+ String (digitChar d) EmptyString)]
      end
  | String c r =>
      match st with
      | Plain =>
          if Ascii.eqb c "%" then scanArg (Percent false) r
          else Lit c :: scanArg Plain r
      | Percent loc =>
          if negb loc && Ascii.eqb c "L" then scanArg (Percent true) r
          else match digitValue c with
               | Some d => scanArg (Digit loc d) r
               | None =>
                   percentLits loc ++
                   (if Ascii.eqb c "%" then scanArg (Percent false) r
                    else Lit c :: scanArg Plain r)
               end
      | Digit loc d =>
          match digitValue c with
          | Some d' =>
              Marker (10 * d + d')
                (percentText loc +:+ String (digitChar d) (String c EmptyString))
              :: scanArg Plain r
          | None =>
              Marker d (percentText loc +:+ String (digitChar d) EmptyString)
              :: (if Ascii.eqb c "%" then scanArg (Percent false) r
                  else Lit c :: scanArg Plain r)
          end
      end
  end.

Fixpoint minEscape (ps : list Piece) : option nat :=
  match ps with
  | [] => None
  | Lit _ :: r => minEscape r
  | Marker n _ :: r =>
      match minEscape r with
      | Some k => Some (Nat.min n k)
      | None => Some n
      end
  end.

Fixpoint replaceEscape (k : nat) (a : string) (ps : list Piece) : string :=
  match ps with
  | [] => EmptyString
  | Lit c :: r => String c (replaceEscape k a r)
  | Marker n text :: r =>
      (if Nat.eqb n k then a else text) +:+ replaceEscape k a r
  end.

Definition arg (s a : string) : string :=
  let ps := scanArg Plain s in
  match minEscape ps with
  | Some k => replaceEscape k a ps
  | None => s
  end.

(** [QObject::tr] without an installed translator returns its source text. *)
Definition tr (s : string) : string := s.

(** ** LogLevel *)

Definition LogLevel : Type := Z.

Definition TraceLevel : LogLevel := 0%Z.
Definition DebugLevel : LogLevel := 1%Z.
Definition InfoLevel  : LogLevel := 2%Z.
Definition WarnLevel  : LogLevel := 3%Z.
Definition ErrorLevel : LogLevel := 4%Z.
Definition FatalLevel : LogLevel := 5%Z.

(** ** QDateTime and the macro DATE_FORMAT *)

Record QDateTime : Type := mkDateTime {
  year : nat; month : nat; day : nat;
  hour : nat; minute : nat; second : nat
}.

Definition DATE_FORMAT : string := "yyyy-MM-dd-hh-mm-ss".

(** ** The world outside the process

    [files] maps the absolute path of every existing regular file to its
    content, a sequence of bytes.  [denied] lists the paths that
    [QFile::open] refuses to open for appending, each with the text that
    [QFile::errorString] then returns.  [console] is what has been handed
    to [qDebug], oldest first.  [clock] is the sequence of values that
    successive calls of [QDateTime::currentDateTime] return and [ticks]
    counts the calls made so far. *)

Record World : Type := mkWorld {
  cwd : string;
  files : gmap string string;
  denied : gmap string string;
  console : list string;
  clock : nat -> QDateTime;
  ticks : nat
}.

Definition qDebug (msg : string) (w : World) : World :=
  {| cwd := cwd w; files := files w; denied := denied w;
     console := console w ++ [msg]; clock := clock w; ticks := ticks w |}.

Definition currentDateTime (w : World) : QDateTime * World :=
  (clock w (ticks w),
   {| cwd := cwd w; files := files w; denied := denied w;
      console := console w; clock := clock w; ticks := S (ticks w) |}).

Definition setFiles (fs : gmap string string) (w : World) : World :=
  {| cwd := cwd w; files := fs; denied := denied w;
     console := console w; clock := clock w; ticks := ticks w |}.

(** ** QFileInfo, QDir and QFile on clean Unix paths *)

Definition isAbsolute (p : string) : bool :=
  match p with
  | String c _ => Ascii.eqb c "/"
  | EmptyString => false
  end.

(** [QDir::absoluteFilePath]: [fileName] inside directory [dir]. *)
Definition QDir_absoluteFilePath (dir fileName : string) : string :=
  if isAbsolute fileName then fileName
  else if endsWith "/" dir then dir +:+ fileName
  else dir +:+ "/" +:+ fileName.

(** [QFileInfo::absoluteFilePath]: the key of the file in [files]. *)
Definition absoluteFilePath (w : World) (p : string) : string :=
  QDir_absoluteFilePath (cwd w) p.

(** [QFileInfo::absolutePath], the path of [QFileInfo::absoluteDir]. *)
Definition absolutePath (w : World) (p : string) : string :=
  let d := beforeLast "/" (absoluteFilePath w p) in
  if isEmpty d then "/" else d.

(** [QFileInfo::fileName]: what follows the last slash. *)
Definition fileName (p : string) : string := afterLast "/" p.

(** [QFileInfo::baseName]: the file name up to, not including, the first dot. *)
Definition baseName (p : string) : string := beforeFirst "." (fileName p).

(** [QFileInfo::completeSuffix]: the file name after the first dot. *)
Definition completeSuffix (p : string) : string := afterFirst "." (fileName p).

(** [QFileInfo::size]: the size in bytes, 0 when the file does not exist. *)
Definition QFileInfo_size (w : World) (p : string) : Z :=
  match files w !! absoluteFilePath w p with
  | Some content => Z.of_nat (String.length content)
  | None => 0%Z
  end.

(** [QFile::rename]: refuses when a file named [newName] exists already,
    and has nothing to move when the file itself does not exist. *)
Definition QFile_rename (p newName : string) (w : World) : World :=
  let src := absoluteFilePath w p in
  let dst := absoluteFilePath w newName in
  match files w !! dst, files w !! src with
  | None, Some content => setFiles (<[dst := content]> (delete src (files w))) w
  | _, _ => w
  end.

(** [QFile::open(Append | Text)], then [flux << text], then [close]:
    the file is created when it does not exist and [text] goes to its
    end; when the file cannot be opened the error text is returned. *)
Definition QFile_append (p text : string) (w : World) : World + string :=
  let key := absoluteFilePath w p in
  match denied w !! key with
  | Some err => inr err
  | None =>
      inl (setFiles (<[key := default EmptyString (files w !! key) +:+ text]> (files w)) w)
  end.

(** [endl] in text mode on Unix: a single line feed. *)
Definition endl : string := String (ascii_of_nat 10) EmptyString.

(** ** A formatter for concrete runs

    [QDateTime::toString] is a parameter of the model below.  For concrete
    runs it is instantiated by [numericToString], which renders the numeric
    expressions of Qt's format language ([yyyy], [yy], [MM], [M], [dd],
    [d], [hh], [h], [HH], [H], [mm], [m], [ss], [s]) and copies every
    other character. *)

Definition number (n : nat) : string := NilZero.string_of_uint (Nat.to_uint n).

Fixpoint zeros (k : nat) : string :=
  match k with
  | O => EmptyString
  | S k' => String "0" (zeros k')
  end.

Definition padded (width n : nat) : string :=
  zeros (width - String.length (number n)) +:+ number n.

Definition fieldValue (dt : QDateTime) (c : ascii) : option nat :=
  if Ascii.eqb c "M" then Some (month dt)
  else if Ascii.eqb c "d" then Some (day dt)
  else if Ascii.eqb c "h" || Ascii.eqb c "H" then Some (hour dt)
  else if Ascii.eqb c "m" then Some (minute dt)
  else if Ascii.eqb c "s" then Some (second dt)
  else None.

(** A run of [n] copies of the character [c] in a format. *)
Fixpoint renderRun (fuel : nat) (dt : QDateTime) (c : ascii) (n : nat) : string :=
  match fuel with
  | O => EmptyString
  | S fuel' =>
      if Nat.eqb n 0 then EmptyString
      else if Ascii.eqb c "y" then
        if (4 <=? n)%nat then padded 4 (year dt) +:+ renderRun fuel' dt c (n - 4)
        else if (2 <=? n)%nat then padded 2 (year dt mod 100) +:+ renderRun fuel' dt c (n - 2)
        else String c (renderRun fuel' dt c (n - 1))
      else match fieldValue dt c with
           | Some v =>
               if (2 <=? n)%nat then padded 2 v +:+ renderRun fuel' dt c (n - 2)
               else number v +:+ renderRun fuel' dt c (n - 1)
           | None => String c (renderRun fuel' dt c (n - 1))
           end
  end.

Fixpoint formatFrom (dt : QDateTime) (cur : ascii) (n : nat) (s : string) : string :=
  match s with
  | EmptyString => renderRun n dt cur n
  | String c r =>
      if Ascii.eqb c cur then formatFrom dt cur (S n) r
      else renderRun n dt cur n +:+ formatFrom dt c 1 r
  end.

Definition numericToString (dt : QDateTime) (format : string) : string :=
  match format with
  | EmptyString => EmptyString
  | String c r => formatFrom dt c 1 r
  end.

(** ** QLoggerWriter, the sink *)

Record QLoggerWriter : Type := mkWriter {
  m_filePath : string;
  m_fileSizeLimit : Z;
  m_saveDatetime : bool;
  m_datetimeFormat : string;
  m_level : LogLevel
}.

(** [QLoggerWriter::QLoggerWriter(QObject *parent)] *)
Definition newQLoggerWriter : QLoggerWriter :=
  {| m_filePath := EmptyString;
     m_fileSizeLimit := 0%Z;
     m_saveDatetime := true;
     m_datetimeFormat := DATE_FORMAT;
     m_level := DebugLevel |}.

(** [QLoggerWriter::QLoggerWriter(filePath, level, parent)]: the delegated
    constructor, then the two assignments. *)
Definition newQLoggerWriterAt (filePath : string) (lvl : LogLevel) : QLoggerWriter :=
  let this := newQLoggerWriter in
  {| m_filePath := filePath;
     m_fileSizeLimit := m_fileSizeLimit this;
     m_saveDatetime := m_saveDatetime this;
     m_datetimeFormat := m_datetimeFormat this;
     m_level := lvl |}.

Definition level (this : QLoggerWriter) : LogLevel := m_level this.

Definition levelToString (lvl : LogLevel) : string :=
  match lvl with
  | 0%Z => "trace"
  | 1%Z => "debug"
  | 2%Z => "info"
  | 3%Z => "warning"
  | 4%Z => "error"
  | 5%Z => "fatal"
  | _ => "INVALID"
  end.

Definition setLevel (lvl : LogLevel) (this : QLoggerWriter) : QLoggerWriter :=
  {| m_filePath := m_filePath this;
     m_fileSizeLimit := m_fileSizeLimit this;
     m_saveDatetime := m_saveDatetime this;
     m_datetimeFormat := m_datetimeFormat this;
     m_level := lvl |}.

Definition setFilePath (filePath : string) (this : QLoggerWriter) : QLoggerWriter :=
  {| m_filePath := filePath;
     m_fileSizeLimit := m_fileSizeLimit this;
     m_saveDatetime := m_saveDatetime this;
     m_datetimeFormat := m_datetimeFormat this;
     m_level := m_level this |}.

Definition fileSizeLimit (this : QLoggerWriter) : Z := m_fileSizeLimit this.

Definition setFileSizeLimit (limit : Z) (this : QLoggerWriter) : QLoggerWriter :=
  {| m_filePath := m_filePath this;
     m_fileSizeLimit := limit;
     m_saveDatetime := m_saveDatetime this;
     m_datetimeFormat := m_datetimeFormat this;
     m_level := m_level this |}.

Definition datetimeFormat (this : QLoggerWriter) : string := m_datetimeFormat this.

Definition setDatetimeFormat (format : string) (this : QLoggerWriter) : QLoggerWriter :=
  {| m_filePath := m_filePath this;
     m_fileSizeLimit := m_fileSizeLimit this;
     m_saveDatetime := m_saveDatetime this;
     m_datetimeFormat := format;
     m_level := m_level this |}.

(** ** QLoggerManager, the registry, and the process *)

Record QLoggerManager : Type := mkManager {
  m_loggers : gmap string (option QLoggerWriter)
}.

Definition newQLoggerManager : QLoggerManager := {| m_loggers := ∅ |}.

(** The static member [m_instance] (null until the first access) and the
    world around the process. *)
Record Process : Type := mkProcess {
  m_instance : option QLoggerManager;
  world : World
}.

(** [QMap::operator[]]: a key that is absent is first inserted with a
    default constructed value, here the null pointer. *)
Definition QMap_index (m : gmap string (option QLoggerWriter)) (name : string)
  : option QLoggerWriter * gmap string (option QLoggerWriter) :=
  match m !! name with
  | Some v => (v, m)
  | None => (None, <[name := None]> m)
  end.

(** [QMap::value], a const method: the default constructed value for a key
    that is absent. *)
Definition QMap_value (m : gmap string (option QLoggerWriter)) (name : string)
  : option QLoggerWriter :=
  default None (m !! name).

(** A write through the pointer that [logWriter] returned for [name]. *)
Definition assign (name : string) (lw : QLoggerWriter) (this : QLoggerManager)
  : QLoggerManager :=
  {| m_loggers := <[name := Some lw]> (m_loggers this) |}.

(** ** getInstancePointer under concurrent callers

    Several threads run [QLoggerManager::getInstancePointer] at once.  Each
    activation declares its own [QMutex mutex] inside the outer test, and
    the [QMutexLocker] locks that local object: the static member
    [QLoggerManager::mutex] is hidden by the declaration.  A thread is at
    one of the program points below; a schedule, the list of the threads
    that move, one after the other, drives the system.  Objects built by
    [new QLoggerManager] are numbered in the order of their construction. *)

Inductive Pc : Type :=
  | OuterTest                      (* if (!m_instance)                      *)
  | Lock                           (* QMutex mutex; QMutexLocker locker     *)
  | InnerTest                      (* if (!m_instance)                      *)
  | Reset                          (* m_instance.reset(new QLoggerManager)  *)
  | Unlock                         (* the locker goes out of scope          *)
  | Return                         (* return m_instance.data()              *)
  | Finished (result : option nat).

Record Thread : Type := mkThread {
  pc : Pc;
  mutexLocked : bool    (* the mutex declared by this activation *)
}.

Record System : Type := mkSystem {
  instance : option nat;       (* the object m_instance points to *)
  constructions : nat;         (* calls of the constructor so far *)
  destroyed : list nat;        (* objects released by reset *)
  threads : list Thread
}.

Definition setThread (i : nat) (t : Thread) (s : System) : System :=
  {| instance := instance s; constructions := constructions s;
     destroyed := destroyed s; threads := <[i := t]> (threads s) |}.

(** One move of thread [i]; [None] when the thread does not exist, has
    returned, or waits for its mutex. *)
Definition stepThread (i : nat) (s : System) : option System :=
  match threads s !! i with
  | None => None
  | Some t =>
      match pc t with
      | OuterTest =>
          match instance s with
          | None => Some (setThread i {| pc := Lock; mutexLocked := false |} s)
          | Some _ => Some (setThread i {| pc := Return; mutexLocked := mutexLocked t |} s)
          end
      | Lock =>
          if mutexLocked t then None
          else Some (setThread i {| pc := InnerTest; mutexLocked := true |} s)
      | InnerTest =>
          match instance s with
          | None => Some (setThread i {| pc := Reset; mutexLocked := mutexLocked t |} s)
          | Some _ => Some (setThread i {| pc := Unlock; mutexLocked := mutexLocked t |} s)
          end
      | Reset =>
          Some {| instance := Some (constructions s);
                  constructions := S (constructions s);
                  destroyed := match instance s with
                               | Some old => destroyed s ++ [old]
                               | None => destroyed s
                               end;
                  threads := <[i := {| pc := Unlock; mutexLocked := mutexLocked t |}]> (threads s) |}
      | Unlock => Some (setThread i {| pc := Return; mutexLocked := false |} s)
      | Return => Some (setThread i {| pc := Finished (instance s); mutexLocked := mutexLocked t |} s)
      | Finished _ => None
      end
  end.

(** A schedule that names a thread unable to move leaves the system as it
    is at that position. *)
Fixpoint runSchedule (schedule : list nat) (s : System) : System :=
  match schedule with
  | [] => s
  | i :: rest => runSchedule rest (default s (stepThread i s))
  end.

(** [n] threads enter [getInstancePointer]; nothing has been built. *)
Definition initialSystem (n : nat) : System :=
  {| instance := None; constructions := 0; destroyed := [];
     threads := replicate n {| pc := OuterTest; mutexLocked := false |} |}.

Definition results (s : System) : list (option nat) :=
  omap (fun t => match pc t with Finished r => Some r | _ => None end) (threads s).


(** *** The lock as the specification words it

    The specification asks for double-checked locking under a lock that
    the callers share.  [spec_stepThread] differs from [stepThread] at the
    program point [Lock] alone: there is one mutex for all threads, a
    thread takes it only while no thread holds it, and [mutexLocked t]
    says that [t] is the holder.  It is used for comparison only. *)

Definition spec_stepThread (i : nat) (s : System) : option System :=
  match threads s !! i with
  | None => None
  | Some t =>
      match pc t with
      | Lock =>
          if existsb mutexLocked (threads s) then None
          else Some (setThread i {| pc := InnerTest; mutexLocked := true |} s)
      | _ => stepThread i s
      end
  end.

Fixpoint spec_runSchedule (schedule : list nat) (s : System) : System :=
  match schedule with
  | [] => s
  | i :: rest => spec_runSchedule rest (default s (spec_stepThread i s))
  end.

(** The invariant of the shared lock: the registry is built at most once,
    nothing is released, one thread at most holds the mutex, and every
    thread between [InnerTest] and [Unlock] holds it. *)
Definition inCritical (t : Thread) : Prop :=
  pc t = InnerTest \/ pc t = Reset \/ pc t = Unlock.

Definition threadOk (s : System) (t : Thread) : Prop :=
  (inCritical t -> mutexLocked t = true) /\
  (pc t = Reset -> instance s = None) /\
  (pc t = Unlock \/ pc t = Return -> instance s = Some 0) /\
  (forall r : option nat, pc t = Finished r -> r = Some 0).

Definition singletonInv (s : System) : Prop :=
  (instance s = None /\ constructions s = 0 \/
   instance s = Some 0 /\ constructions s = 1) /\
  destroyed s = [] /\
  (forall (i j : nat) (ti tj : Thread),
     threads s !! i = Some ti -> threads s !! j = Some tj ->
     mutexLocked ti = true -> mutexLocked tj = true -> i = j) /\
  (forall (i : nat) (t : Thread), threads s !! i = Some t -> threadOk s t).

(** ** The rotated name as the specification words it

    The specification splits the file name at its last dot.  These two
    definitions follow its words; they are compared with [baseName] and
    [completeSuffix], which split at the first dot. *)

Definition spec_baseName (p : string) : string :=
  if contains "." (fileName p) then beforeLast "." (fileName p) else fileName p.

Definition spec_suffix (p : string) : string :=
  if contains "." (fileName p) then afterLast "." (fileName p) else EmptyString.

(** ** Data for concrete runs *)

(** The clock starts on 5 January 2024 at 13:45:09 and every reading comes
    one second after the one before. *)
Definition clock0 (n : nat) : QDateTime :=
  {| year := 2024; month := 1; day := 5; hour := 13; minute := 45; second := 9 + n |}.

(** An empty file system. *)
Definition world0 : World :=
  {| cwd := "/srv/app"; files := ∅; denied := ∅; console := [];
     clock := clock0; ticks := 0 |}.

(** A file system that holds a log file of ten bytes. *)
Definition worldFull : World :=
  {| cwd := "/srv/app";
     files := {[ "/var/log/app.1.log" := "0123456789" ]};
     denied := ∅; console := []; clock := clock0; ticks := 0 |}.

(** A file system in which the log file cannot be opened. *)
Definition worldDenied : World :=
  {| cwd := "/srv/app"; files := ∅;
     denied := {[ "/var/log/app.log" := "Permission denied" ]};
     console := []; clock := clock0; ticks := 0 |}.

(** A sink as [add] builds it, with the minimum level [WarnLevel]. *)
Definition sinkWarn : QLoggerWriter := newQLoggerWriterAt "/var/log/app.log" WarnLevel.

(** The same sink with the timestamp switched off. *)
Definition sinkPlain : QLoggerWriter :=
  {| m_filePath := "/var/log/app.log"; m_fileSizeLimit := 0%Z;
     m_saveDatetime := false; m_datetimeFormat := DATE_FORMAT;
     m_level := WarnLevel |}.

(** A sink without path, as the default constructor leaves it. *)
Definition sinkNoPath : QLoggerWriter := newQLoggerWriter.

(** A sink on a file whose name has two dots, with a limit of ten bytes. *)
Definition sinkRotating : QLoggerWriter :=
  setFileSizeLimit 10%Z (newQLoggerWriterAt "/var/log/app.1.log" DebugLevel).

(** A sink whose timestamp format has been set to the year alone. *)
Definition sinkYear : QLoggerWriter :=
  setDatetimeFormat "yyyy" (newQLoggerWriterAt "/var/log/app.log" DebugLevel).

(** Two threads run [getInstancePointer]; both pass the two tests before
    either of them builds the registry. *)
Definition racingSchedule : list nat := [0; 1; 0; 0; 1; 1; 0; 0; 0; 1; 1; 1].

(** The same two threads, one after the other. *)
Definition sequentialSchedule : list nat := [0; 0; 0; 0; 0; 0; 1; 1].

(** *** Schedules for any number of callers *)

(** Every thread in turn passes the outer test, locks its mutex and passes
    the inner test; then every thread in turn runs the [reset]. *)
Definition enterAll (n : nat) : list nat :=
  flat_map (fun i => [i; i; i]) (seq 0 n).

Definition raceAll (n : nat) : list nat := enterAll n ++ seq 0 n.

(** Every thread in turn runs the whole function before the next starts
    (six moves take the longest path to the end). *)
Definition oneByOne (n : nat) : list nat :=
  flat_map (fun i => replicate 6 i) (seq 0 n).

(** A registry with the one channel ["ch"], bound to [sinkWarn], and a
    process around it. *)
Definition registryCh : QLoggerManager :=
  {| m_loggers := {[ "ch" := Some sinkWarn ]} |}.

Definition processCh : Process :=
  {| m_instance := Some registryCh; world := world0 |}.

(** A process whose channel ["ch"] writes to the ten-byte file of
    [worldFull], with no size limit yet. *)
Definition sinkFull : QLoggerWriter := newQLoggerWriterAt "/var/log/app.1.log" DebugLevel.



Section QLogger.

(** [QDateTime::toString(format)] and whether the build defines
    [QT_DEBUG]. *)
Variable toString : QDateTime -> string -> string.
Variable QT_DEBUG : bool.

(** [QLoggerWriter::checkFileSizeLimit] *)
Definition checkFileSizeLimit (this : QLoggerWriter) (w : World)
  : QLoggerWriter * World :=
  let fileSizeLimit := fileSizeLimit this in
  if (fileSizeLimit <=? 0)%Z then (this, w)
  else
    let info := m_filePath this in
    if (QFileInfo_size w info >=? fileSizeLimit)%Z then
      let baseName := baseName info in
      let suffix := completeSuffix info in
      let '(now, w) := currentDateTime w in
      let fileName :=
        baseName +:+ "_" +:+ toString now "ddMMyyyyhhmmss" +:+ "." +:+ suffix in
      (this, QFile_rename info (QDir_absoluteFilePath (absolutePath w info) fileName) w)
    else (this, w).

(** [QLoggerWriter::write] *)
Definition write (this : QLoggerWriter) (message : string) (lvl : LogLevel)
  (w : World) : QLoggerWriter * World :=
  if (m_level this >? lvl)%Z then (this, w)
  else if isEmpty (m_filePath this) then
    (this, qDebug (tr "QLogger : Le lien du fichier ne peut être vide.") w)
  else
    let '(this, w) := checkFileSizeLimit this w in
    let log := levelToString lvl +:+ " : " +:+ message in
    let '(log, w) :=
      if m_saveDatetime this then
        let '(now, w) := currentDateTime w in
        let datetime := toString now DATE_FORMAT in
        (datetime +:+ " : " +:+ log, w)
      else (log, w) in
    let w := if QT_DEBUG then qDebug log w else w in
    match QFile_append (m_filePath this) (log +:+ endl) w with
    | inl w' => (this, w')
    | inr errorString =>
        (this,
         qDebug (arg (arg (tr "QLogger : Impossible d'ouvrir le fichier %1, Erreur : %2.")
                        (m_filePath this)) errorString) w)
    end.

(** [QLoggerManager::getInstancePointer], one thread running alone: the
    outer test, the locker on the local mutex, the inner test. *)
Definition getInstancePointer (p : Process) : QLoggerManager * Process :=
  match m_instance p with
  | None =>
      match m_instance p with
      | None =>
          let mgr := newQLoggerManager in
          (mgr, {| m_instance := Some mgr; world := world p |})
      | Some mgr => (mgr, p)
      end
  | Some mgr => (mgr, p)
  end.

Definition getInstance (p : Process) : QLoggerManager * Process :=
  getInstancePointer p.

(** [QLoggerManager::add] *)
Definition add (filePath name : string) (lvl : LogLevel)
  (this : QLoggerManager) (w : World) : QLoggerManager * World :=
  let '(found, loggers) := QMap_index (m_loggers this) name in
  match found with
  | Some _ =>
      ({| m_loggers := loggers |},
       qDebug (arg (tr "QLoggerManager::add, %1 existe déjà !") name) w)
  | None =>
      let writer := newQLoggerWriterAt filePath lvl in
      ({| m_loggers := <[name := Some writer]> loggers |}, w)
  end.

(** [QLoggerManager::remove] *)
Definition remove (name : string) (this : QLoggerManager) : QLoggerManager :=
  {| m_loggers := delete name (m_loggers this) |}.

(** [QLoggerManager::logWriter]: the pointer found, null as [None], and
    the manager as the call leaves it. *)
Definition logWriter (name : string) (this : QLoggerManager)
  : option QLoggerWriter * QLoggerManager :=
  (QMap_value (m_loggers this) name, this).

(** [QLoggerManager::privateLog] *)
Definition privateLog (name message : string) (lvl : LogLevel) (p : Process)
  : Process :=
  let '(manager, p) := getInstance p in
  let '(found, manager) := logWriter name manager in
  match found with
  | Some lw =>
      let '(lw, w) := write lw message lvl (world p) in
      {| m_instance := Some (assign name lw manager); world := w |}
  | None =>
      {| m_instance := Some manager;
         world := qDebug (arg (tr "QLogger : %1 n'est pas enregistré dans QLoggerManager.")
                            name) (world p) |}
  end.

(** [QLoggerManager::log] *)
Definition QLoggerManager_log (name message : string) (lvl : LogLevel)
  (p : Process) : Process :=
  privateLog name message lvl p.

(** [QLoggerManager::setLimitSize] *)
Definition QLoggerManager_setLimitSize (size : Z) (name : string) (p : Process)
  : Process :=
  let '(manager, p) := getInstance p in
  let '(found, manager) := logWriter name manager in
  match found with
  | Some lw =>
      {| m_instance := Some (assign name (setFileSizeLimit size lw) manager);
         world := world p |}
  | None =>
      {| m_instance := Some manager;
         world := qDebug (arg (tr "QLogger : %1 n'est pas enregistré dans QLoggerManager.")
                            name) (world p) |}
  end.

(** The free functions of the namespace. *)
Definition log (name message : string) (lvl : LogLevel) (p : Process) : Process :=
  QLoggerManager_log name message lvl p.

Definition trace (message name : string) : Process -> Process :=
  log name message TraceLevel.
Definition debug (message name : string) : Process -> Process :=
  log name message DebugLevel.
Definition info (message name : string) : Process -> Process :=
  log name message InfoLevel.
Definition warning (message name : string) : Process -> Process :=
  log name message WarnLevel.
Definition error (message name : string) : Process -> Process :=
  log name message ErrorLevel.
Definition fatal (message name : string) : Process -> Process :=
  log name message FatalLevel.

Definition setLimitSize (size : Z) (name : string) (p : Process) : Process :=
  QLoggerManager_setLimitSize size name p.


(** The registry states that the public operations produce: [add],
    [remove], and a write through a pointer that [logWriter] returned. *)
Inductive step : QLoggerManager -> QLoggerManager -> Prop :=
  | step_add filePath name lvl w this :
      step this (fst (add filePath name lvl this w))
  | step_remove name this :
      step this (remove name this)
  | step_assign name lw lw' this :
      fst (logWriter name this) = Some lw ->
      step this (assign name lw' this).

Inductive reachable : QLoggerManager -> Prop :=
  | reachable_new : reachable newQLoggerManager
  | reachable_step this this' :
      reachable this -> step this this' -> reachable this'.

(** The channel-to-sink mapping of a process; empty while the registry has
    not been built. *)
Definition loggersOf (p : Process) : gmap string (option QLoggerWriter) :=
  match m_instance p with
  | Some manager => m_loggers manager
  | None => ∅
  end.

(** The file of a sink, as the file system knows it, and its content. *)
Definition fileKey (this : QLoggerWriter) (w : World) : string :=
  absoluteFilePath w (m_filePath this).

Definition contentOf (this : QLoggerWriter) (w : World) : string :=
  default EmptyString (files w !! fileKey this w).

(** The line that [write] builds, given the clock reading it would take. *)
Definition lineOf (this : QLoggerWriter) (now : QDateTime) (lvl : LogLevel)
  (message : string) : string :=
  if m_saveDatetime this
  then toString now DATE_FORMAT +:+ " : " +:+ levelToString lvl +:+ " : " +:+ message
  else levelToString lvl +:+ " : " +:+ message.

(** The name and the path that [checkFileSizeLimit] gives to the file it
    moves aside, given the clock reading it would take. *)
Definition rotatedName (this : QLoggerWriter) (now : QDateTime) : string :=
  baseName (m_filePath this) +:+ "_" +:+ toString now "ddMMyyyyhhmmss"
  +:+ "." +:+ completeSuffix (m_filePath this).

Definition rotatedPath (this : QLoggerWriter) (now : QDateTime) (w : World) : string :=
  QDir_absoluteFilePath (absolutePath w (m_filePath this)) (rotatedName this now).

(** The same path with the name split as the specification words it. *)
Definition spec_rotatedPath (this : QLoggerWriter) (now : QDateTime) (w : World)
  : string :=
  QDir_absoluteFilePath (absolutePath w (m_filePath this))
    (spec_baseName (m_filePath this) +:+ "_" +:+ toString now "ddMMyyyyhhmmss"
     +:+ "." +:+ spec_suffix (m_filePath this)).

(** A channel name is registered when the registry maps it to a sink. *)
Definition registered (name : string) (p : Process) : Prop :=
  exists lw : QLoggerWriter, loggersOf p !! name = Some (Some lw).

(** ** Strings and diagnostics *)

Lemma app_String (x : ascii) (a b : string) :
  String x a +:+ b = String x (a +:+ b).
Proof. reflexivity. Qed.

Lemma app_assoc_string (a b c : string) : (a +:+ b) +:+ c = a +:+ (b +:+ c).
Proof.
  induction a as [|x a IH]; [reflexivity|].
  rewrite !app_String. f_equal. exact IH.
Qed.

Lemma notRegistered_text (name : string) :
  arg (tr "QLogger : %1 n'est pas enregistré dans QLoggerManager.") name
  = "QLogger : " +:+ name +:+ " n'est pas enregistré dans QLoggerManager.".
Proof. reflexivity. Qed.

Lemma alreadyThere_text (name : string) :
  arg (tr "QLoggerManager::add, %1 existe déjà !") name
  = "QLoggerManager::add, " +:+ name +:+ " existe déjà !".
Proof. reflexivity. Qed.

(** ** The rotation check leaves everything but the files and the clock *)

Lemma checkFileSizeLimit_this (this : QLoggerWriter) (w : World) :
  fst (checkFileSizeLimit this w) = this.
Proof.
  unfold checkFileSizeLimit.
  destruct (fileSizeLimit this <=? 0)%Z; [reflexivity|].
  destruct (QFileInfo_size w (m_filePath this) >=? fileSizeLimit this)%Z; reflexivity.
Qed.

Lemma QFile_rename_frame (p newName : string) (w : World) :
  cwd (QFile_rename p newName w) = cwd w /\
  denied (QFile_rename p newName w) = denied w /\
  console (QFile_rename p newName w) = console w /\
  clock (QFile_rename p newName w) = clock w /\
  ticks (QFile_rename p newName w) = ticks w.
Proof.
  unfold QFile_rename.
  destruct (files w !! absoluteFilePath w newName);
    destruct (files w !! absoluteFilePath w p); simpl; auto.
Qed.

Lemma checkFileSizeLimit_frame (this : QLoggerWriter) (w : World) :
  cwd (snd (checkFileSizeLimit this w)) = cwd w /\
  denied (snd (checkFileSizeLimit this w)) = denied w /\
  console (snd (checkFileSizeLimit this w)) = console w /\
  clock (snd (checkFileSizeLimit this w)) = clock w.
Proof.
  unfold checkFileSizeLimit.
  destruct (fileSizeLimit this <=? 0)%Z; [simpl; auto|].
  destruct (QFileInfo_size w (m_filePath this) >=? fileSizeLimit this)%Z;
    [|simpl; auto].
  cbn [currentDateTime snd].
  match goal with
  | |- context [QFile_rename ?p ?n ?w'] =>
      destruct (QFile_rename_frame p n w') as (H1 & H2 & H3 & H4 & _)
  end.
  rewrite H1, H2, H3, H4. simpl. auto.
Qed.

Lemma fileKey_rotated (this : QLoggerWriter) (w : World) :
  fileKey this (snd (checkFileSizeLimit this w)) = fileKey this w.
Proof.
  unfold fileKey, absoluteFilePath.
  destruct (checkFileSizeLimit_frame this w) as (-> & _). reflexivity.
Qed.

(** What an accepted write does to the files: after the rotation check,
    the line and one line feed go to the end of the sink's file. *)
Lemma write_accepted_files (this : QLoggerWriter) (message : string)
  (lvl : LogLevel) (w : World) :
  (m_level this <= lvl)%Z ->
  isEmpty (m_filePath this) = false ->
  denied w !! fileKey this w = None ->
  let w1 := snd (checkFileSizeLimit this w) in
  files (snd (write this message lvl w))
  = <[fileKey this w :=
        contentOf this w1 +:+ lineOf this (clock w1 (ticks w1)) lvl message +:+ endl]>
      (files w1).
Proof.
  intros Hlvl Hpath Hopen w1.
  unfold write.
  rewrite Z.gtb_ltb. destruct (Z.ltb_spec lvl (m_level this)) as [?|_]; [lia|].
  rewrite Hpath.
  pose proof (checkFileSizeLimit_this this w) as Hthis.
  pose proof (checkFileSizeLimit_frame this w) as (Hcwd & Hden & _ & _).
  pose proof (fileKey_rotated this w) as Hkey.
  fold w1 in Hcwd, Hden, Hkey.
  destruct (checkFileSizeLimit this w) as [this' w1'] eqn:E.
  simpl in Hthis. subst this'. subst w1. simpl in *.
  unfold lineOf, contentOf, fileKey, absoluteFilePath in *.
  destruct (m_saveDatetime this); destruct QT_DEBUG;
    unfold QFile_append, absoluteFilePath; simpl;
    rewrite ?Hcwd, ?Hden, ?Hopen; simpl;
    rewrite ?Hcwd, ?app_assoc_string; reflexivity.
Qed.

Lemma write_this (this : QLoggerWriter) (message : string) (lvl : LogLevel)
  (w : World) :
  fst (write this message lvl w) = this.
Proof.
  unfold write.
  destruct (m_level this >? lvl)%Z; [reflexivity|].
  destruct (isEmpty (m_filePath this)); [reflexivity|].
  pose proof (checkFileSizeLimit_this this w) as Hthis.
  destruct (checkFileSizeLimit this w) as [this' w1]. simpl in Hthis. subst this'.
  destruct (m_saveDatetime this); simpl;
    match goal with |- context [QFile_append ?p ?t ?w'] =>
      destruct (QFile_append p t w') end; reflexivity.
Qed.

(** ** Level filter *)

(** C1.  A message whose level is strictly below the minimum level of the
    sink is dropped: [write] returns the sink and the world as they were
    (no file touched, nothing on the console, the clock not read).  A
    message at the minimum level or above passes the filter: with a path
    that is not empty and a file that can be opened, the file afterwards
    ends with the level name, the message and a line feed. *)
Theorem write_level_filter (this : QLoggerWriter) (message : string)
  (lvl : LogLevel) (w : World) :
  ((lvl < m_level this)%Z -> write this message lvl w = (this, w)) /\
  ((m_level this <= lvl)%Z ->
   isEmpty (m_filePath this) = false ->
   denied w !! fileKey this w = None ->
   exists before : string,
     files (snd (write this message lvl w)) !! fileKey this w
     = Some (before +:+ levelToString lvl +:+ " : " +:+ message +:+ endl)).
Proof.
  split.
  - intros Hlt. unfold write.
    rewrite Z.gtb_ltb. destruct (Z.ltb_spec lvl (m_level this)) as [_|?]; [reflexivity|lia].
  - intros Hle Hpath Hopen.
    rewrite (write_accepted_files this message lvl w Hle Hpath Hopen).
    rewrite lookup_insert_eq. unfold lineOf.
    set (w1 := snd (checkFileSizeLimit this w)).
    destruct (m_saveDatetime this).
    + exists (contentOf this w1 +:+ toString (clock w1 (ticks w1)) DATE_FORMAT +:+ " : ").
      rewrite !app_assoc_string. reflexivity.
    + exists (contentOf this w1).
      rewrite !app_assoc_string. reflexivity.
Qed.

(** ** The line written *)

(** C2.  For an accepted write (level at or above the minimum, a path that
    is not empty, a file that can be opened), the file of the sink is, after
    the call, what the rotation check left of it followed by the line and
    one line feed.  The line is the level name, [" : "] and the message when
    [m_saveDatetime] is false, and the timestamp, [" : "], the level name,
    [" : "] and the message when it is true.  The level names are the six
    lowercase words, and every value outside 0..5 gives ["INVALID"]. *)
Theorem write_line_format (this : QLoggerWriter) (message : string)
  (lvl : LogLevel) (w : World) :
  (m_level this <= lvl)%Z ->
  isEmpty (m_filePath this) = false ->
  denied w !! fileKey this w = None ->
  let w1 := snd (checkFileSizeLimit this w) in
  let timestamp := toString (clock w1 (ticks w1)) DATE_FORMAT in
  (m_saveDatetime this = false ->
   files (snd (write this message lvl w))
   = <[fileKey this w :=
         contentOf this w1 +:+ (levelToString lvl +:+ " : " +:+ message) +:+ endl]>
       (files w1)) /\
  (m_saveDatetime this = true ->
   files (snd (write this message lvl w))
   = <[fileKey this w :=
         contentOf this w1
         +:+ (timestamp +:+ " : " +:+ levelToString lvl +:+ " : " +:+ message)
         +:+ endl]>
       (files w1)) /\
  String.length endl = 1 /\
  levelToString TraceLevel = "trace" /\
  levelToString DebugLevel = "debug" /\
  levelToString InfoLevel = "info" /\
  levelToString WarnLevel = "warning" /\
  levelToString ErrorLevel = "error" /\
  levelToString FatalLevel = "fatal" /\
  (forall l : LogLevel, (l < 0 \/ 5 < l)%Z -> levelToString l = "INVALID").
Proof.
  intros Hle Hpath Hopen w1 timestamp.
  pose proof (write_accepted_files this message lvl w Hle Hpath Hopen) as H.
  cbv zeta in H. fold w1 in H.
  repeat split; try reflexivity.
  - intros Hsave. rewrite H. unfold lineOf. rewrite Hsave. reflexivity.
  - intros Hsave. rewrite H. unfold lineOf. rewrite Hsave. reflexivity.
  - intros l [Hl|Hl].
    + destruct l as [|q|q]; try lia. reflexivity.
    + unfold levelToString.
      destruct l as [|q|q]; try lia.
      do 3 (destruct q as [q|q|]; try lia; try reflexivity).
Qed.

(** ** Empty path *)

(** C7.  A sink whose path is the empty string, asked to write at or above
    its minimum level, hands one diagnostic to the console and returns:
    the files are as before and the clock has not been read, so neither the
    rotation check nor the append has run. *)
Theorem write_empty_path (this : QLoggerWriter) (message : string)
  (lvl : LogLevel) (w : World) :
  m_filePath this = EmptyString ->
  (m_level this <= lvl)%Z ->
  write this message lvl w
  = (this, qDebug "QLogger : Le lien du fichier ne peut être vide." w) /\
  files (snd (write this message lvl w)) = files w /\
  ticks (snd (write this message lvl w)) = ticks w /\
  console (snd (write this message lvl w))
  = console w ++ ["QLogger : Le lien du fichier ne peut être vide."].
Proof.
  intros Hpath Hle.
  assert (write this message lvl w
          = (this, qDebug "QLogger : Le lien du fichier ne peut être vide." w)) as E.
  { unfold write. rewrite Z.gtb_ltb.
    destruct (Z.ltb_spec lvl (m_level this)) as [?|_]; [lia|].
    rewrite Hpath. reflexivity. }
  rewrite E. repeat split.
Qed.

(** ** The configuration of a sink across a write *)

(** C10.  Whatever the branch taken (filtered out, empty path, file that
    cannot be opened, line appended), the sink that [write] leaves has the
    five fields it had: [m_filePath], [m_level], [m_fileSizeLimit],
    [m_saveDatetime] and [m_datetimeFormat]. *)
Theorem write_keeps_configuration (this : QLoggerWriter) (message : string)
  (lvl : LogLevel) (w : World) :
  m_filePath (fst (write this message lvl w)) = m_filePath this /\
  m_level (fst (write this message lvl w)) = m_level this /\
  m_fileSizeLimit (fst (write this message lvl w)) = m_fileSizeLimit this /\
  m_saveDatetime (fst (write this message lvl w)) = m_saveDatetime this /\
  m_datetimeFormat (fst (write this message lvl w)) = m_datetimeFormat this.
Proof. rewrite write_this. repeat split. Qed.

(** ** The timestamp format of a sink *)

Lemma checkFileSizeLimit_setDatetimeFormat (format : string)
  (this : QLoggerWriter) (w : World) :
  checkFileSizeLimit (setDatetimeFormat format this) w
  = (setDatetimeFormat format this, snd (checkFileSizeLimit this w)).
Proof.
  unfold checkFileSizeLimit, fileSizeLimit. simpl.
  destruct (m_fileSizeLimit this <=? 0)%Z; [reflexivity|].
  destruct (QFileInfo_size w (m_filePath this) >=? m_fileSizeLimit this)%Z; reflexivity.
Qed.

(** The world after a write does not depend on [m_datetimeFormat]: the
    timestamp is rendered with the macro [DATE_FORMAT]. *)
Lemma write_ignores_datetimeFormat (format : string) (this : QLoggerWriter)
  (message : string) (lvl : LogLevel) (w : World) :
  snd (write (setDatetimeFormat format this) message lvl w)
  = snd (write this message lvl w).
Proof.
  unfold write. rewrite checkFileSizeLimit_setDatetimeFormat. simpl.
  destruct (m_level this >? lvl)%Z; [reflexivity|].
  destruct (isEmpty (m_filePath this)); [reflexivity|].
  pose proof (checkFileSizeLimit_this this w) as Hthis.
  destruct (checkFileSizeLimit this w) as [this' w1]. simpl in Hthis. subst this'.
  simpl.
  destruct (m_saveDatetime this); simpl;
    match goal with |- context [QFile_append ?p ?t ?w'] =>
      destruct (QFile_append p t w') end; reflexivity.
Qed.

(** ** Rotation *)

Lemma beforeFirst_free (c : ascii) (s : string) :
  contains c (beforeFirst c s) = false.
Proof.
  induction s as [|a s IH]; simpl; [reflexivity|].
  destruct (Ascii.eqb a c) eqn:E; simpl; [reflexivity|].
  rewrite E. exact IH.
Qed.

Lemma split_at_first (c : ascii) (s : string) :
  contains c s = true ->
  s = beforeFirst c s +:+ String c (afterFirst c s).
Proof.
  induction s as [|a s IH]; simpl; [discriminate|].
  destruct (Ascii.eqb a c) eqn:E; simpl.
  - intros _. apply Ascii.eqb_eq in E. subst a. reflexivity.
  - intros H. rewrite app_String. f_equal. apply IH, H.
Qed.

Lemma split_without (c : ascii) (s : string) :
  contains c s = false ->
  beforeFirst c s = s /\ afterFirst c s = EmptyString.
Proof.
  induction s as [|a s IH]; simpl; [auto|].
  destruct (Ascii.eqb a c); simpl; [discriminate|].
  intros H. destruct (IH H) as [-> ->]. auto.
Qed.

Lemma afterLast_free (c : ascii) (s : string) :
  contains c (afterLast c s) = false.
Proof.
  induction s as [|a s IH]; simpl; [reflexivity|].
  destruct (contains c s) eqn:E; [exact IH|].
  destruct (Ascii.eqb a c) eqn:Ea; [exact E|].
  simpl. rewrite Ea, E. reflexivity.
Qed.

Lemma beforeFirst_keeps_free (d c : ascii) (s : string) :
  contains d s = false -> contains d (beforeFirst c s) = false.
Proof.
  induction s as [|a s IH]; simpl; [reflexivity|].
  intros H. apply orb_false_iff in H as [Ha Hs].
  destruct (Ascii.eqb a c); simpl; [reflexivity|].
  rewrite Ha. apply IH, Hs.
Qed.

Lemma isAbsolute_app (x y : string) :
  contains "/" x = false -> isAbsolute y = false -> isAbsolute (x +:+ y) = false.
Proof.
  destruct x as [|a x]; simpl; [auto|].
  intros H _. apply orb_false_iff in H as [Ha _]. exact Ha.
Qed.

(** The rotated name never starts with a slash, so [QDir::absoluteFilePath]
    puts it inside the directory of the file. *)
Lemma rotatedPath_in_directory (this : QLoggerWriter) (now : QDateTime) (w : World) :
  rotatedPath this now w
  = if endsWith "/" (absolutePath w (m_filePath this))
    then absolutePath w (m_filePath this) +:+ rotatedName this now
    else absolutePath w (m_filePath this) +:+ "/" +:+ rotatedName this now.
Proof.
  unfold rotatedPath, QDir_absoluteFilePath.
  assert (isAbsolute (rotatedName this now) = false) as ->; [|reflexivity].
  unfold rotatedName. apply isAbsolute_app; [|reflexivity].
  unfold baseName, fileName. apply beforeFirst_keeps_free, afterLast_free.
Qed.

(** C4, as the code has it.  The rotation check does nothing when the
    limit is zero or negative, nothing when the file does not exist, and
    nothing when the file is smaller than the limit.  When the limit is
    positive and the file has reached it, the file is moved, inside its
    directory, to the name made of the base name, an underscore, the
    wall-clock time rendered with [ddMMyyyyhhmmss], a dot and the complete
    suffix, provided no file bears that name yet; when one does, no file
    is touched.  The base name is the file name up to its FIRST dot and
    the complete suffix is all that follows that first dot. *)
Theorem checkFileSizeLimit_rotation (this : QLoggerWriter) (w : World) :
  ((fileSizeLimit this <= 0)%Z -> checkFileSizeLimit this w = (this, w)) /\
  (files w !! fileKey this w = None -> checkFileSizeLimit this w = (this, w)) /\
  (forall content : string,
     files w !! fileKey this w = Some content ->
     (Z.of_nat (String.length content) < fileSizeLimit this)%Z ->
     checkFileSizeLimit this w = (this, w)) /\
  (forall content : string,
     files w !! fileKey this w = Some content ->
     (0 < fileSizeLimit this <= Z.of_nat (String.length content))%Z ->
     let now := clock w (ticks w) in
     let target := absoluteFilePath w (rotatedPath this now w) in
     rotatedPath this now w
     = (if endsWith "/" (absolutePath w (m_filePath this))
        then absolutePath w (m_filePath this) +:+ rotatedName this now
        else absolutePath w (m_filePath this) +:+ "/" +:+ rotatedName this now) /\
     rotatedName this now
     = baseName (m_filePath this) +:+ "_" +:+ toString now "ddMMyyyyhhmmss"
       +:+ "." +:+ completeSuffix (m_filePath this) /\
     (files w !! target = None ->
      files (snd (checkFileSizeLimit this w))
      = <[target := content]> (delete (fileKey this w) (files w))) /\
     (is_Some (files w !! target) ->
      files (snd (checkFileSizeLimit this w)) = files w)) /\
  contains "." (baseName (m_filePath this)) = false /\
  (contains "." (fileName (m_filePath this)) = true ->
   fileName (m_filePath this)
   = baseName (m_filePath this) +:+ "." +:+ completeSuffix (m_filePath this)) /\
  (contains "." (fileName (m_filePath this)) = false ->
   baseName (m_filePath this) = fileName (m_filePath this) /\
   completeSuffix (m_filePath this) = EmptyString).
Proof.
  repeat apply conj.
  - intros H. unfold checkFileSizeLimit.
    destruct (Z.leb_spec (fileSizeLimit this) 0) as [_|?]; [reflexivity|lia].
  - intros H. unfold checkFileSizeLimit, QFileInfo_size.
    unfold fileKey in H. rewrite H.
    destruct (Z.leb_spec (fileSizeLimit this) 0) as [_|?]; [reflexivity|].
    destruct (Z.geb_spec 0 (fileSizeLimit this)) as [?|_]; [lia|reflexivity].
  - intros content H Hsize. unfold checkFileSizeLimit, QFileInfo_size.
    unfold fileKey in H. rewrite H.
    destruct (Z.leb_spec (fileSizeLimit this) 0) as [_|?]; [reflexivity|].
    destruct (Z.geb_spec (Z.of_nat (String.length content)) (fileSizeLimit this))
      as [?|_]; [lia|reflexivity].
  - intros content H Hsize now target.
    assert (files (snd (checkFileSizeLimit this w))
            = files (QFile_rename (m_filePath this) (rotatedPath this now w) w)) as E.
    { unfold checkFileSizeLimit, QFileInfo_size.
      unfold fileKey in H. rewrite H.
      destruct (Z.leb_spec (fileSizeLimit this) 0) as [?|_]; [lia|].
      destruct (Z.geb_spec (Z.of_nat (String.length content)) (fileSizeLimit this))
        as [_|?]; [|lia].
      cbn [currentDateTime snd]. unfold QFile_rename.
      unfold now, rotatedPath, rotatedName, absolutePath, absoluteFilePath.
      cbn [cwd files].
      destruct (files w !! _); destruct (files w !! _); reflexivity. }
    split; [apply rotatedPath_in_directory|].
    split; [reflexivity|].
    rewrite E. unfold QFile_rename. fold target. unfold fileKey in H. rewrite H.
    split.
    + intros Hfree. rewrite Hfree. reflexivity.
    + intros [other Hother]. rewrite Hother. reflexivity.
  - apply beforeFirst_free.
  - apply split_at_first.
  - apply split_without.
Qed.

(** ** The registry *)

Lemma add_bound (filePath name : string) (lvl : LogLevel)
  (this : QLoggerManager) (w : World) (lw : QLoggerWriter) :
  m_loggers this !! name = Some (Some lw) ->
  add filePath name lvl this w
  = (this, qDebug ("QLoggerManager::add, " +:+ name +:+ " existe déjà !") w).
Proof.
  intros H. unfold add, QMap_index. rewrite H, alreadyThere_text.
  destruct this. reflexivity.
Qed.

Lemma add_fresh (filePath name : string) (lvl : LogLevel)
  (this : QLoggerManager) (w : World) :
  m_loggers this !! name = None ->
  add filePath name lvl this w
  = ({| m_loggers := <[name := Some (newQLoggerWriterAt filePath lvl)]> (m_loggers this) |}, w).
Proof.
  intros H. unfold add, QMap_index. rewrite H.
  rewrite insert_insert_eq. reflexivity.
Qed.

(** No reachable registry holds a null pointer: the entry that
    [operator[]] creates inside [add] is overwritten before [add] returns. *)
Lemma reachable_no_null (this : QLoggerManager) :
  reachable this -> forall name : string, m_loggers this !! name <> Some None.
Proof.
  induction 1 as [|this this' Hreach IH Hstep]; intros n.
  - simpl. rewrite lookup_empty. discriminate.
  - destruct Hstep as [filePath name lvl w this|name this|name lw lw' this Hlw].
    + destruct (m_loggers this !! name) as [[lw|]|] eqn:E.
      * rewrite (add_bound _ _ _ _ _ _ E). apply IH.
      * exfalso. exact (IH name E).
      * rewrite (add_fresh _ _ _ _ _ E). simpl.
        destruct (decide (name = n)) as [->|Hne].
        -- rewrite lookup_insert_eq. discriminate.
        -- rewrite lookup_insert_ne by exact Hne. apply IH.
    + simpl. destruct (decide (name = n)) as [->|Hne].
      * rewrite lookup_delete_eq. discriminate.
      * rewrite lookup_delete_ne by exact Hne. apply IH.
    + simpl. destruct (decide (name = n)) as [->|Hne].
      * rewrite lookup_insert_eq. discriminate.
      * rewrite lookup_insert_ne by exact Hne. apply IH.
Qed.

(** C5.  In a registry that the public operations have produced, a name
    that is present is bound to exactly one sink, and [add] called with
    that name, whatever the path and the level, returns the registry as it
    was: nothing is inserted and the sink keeps its path, its level and its
    other fields.  The world only gains the diagnostic.  A lookup and a
    [log] on that channel behave afterwards as they did before. *)
Theorem add_existing_untouched (filePath name : string) (lvl : LogLevel)
  (this : QLoggerManager) (w : World) :
  reachable this ->
  is_Some (m_loggers this !! name) ->
  exists lw : QLoggerWriter,
    m_loggers this !! name = Some (Some lw) /\
    (forall lw' : QLoggerWriter, fst (logWriter name this) = Some lw' -> lw' = lw) /\
    fst (add filePath name lvl this w) = this /\
    snd (add filePath name lvl this w)
    = qDebug ("QLoggerManager::add, " +:+ name +:+ " existe déjà !") w /\
    files (snd (add filePath name lvl this w)) = files w /\
    fst (logWriter name (fst (add filePath name lvl this w))) = Some lw /\
    (forall (message : string) (l : LogLevel),
       privateLog name message l
         {| m_instance := Some (fst (add filePath name lvl this w));
            world := w |}
       = privateLog name message l {| m_instance := Some this; world := w |}).
Proof.
  intros Hreach [v Hv].
  destruct v as [lw|]; [|exfalso; exact (reachable_no_null this Hreach name Hv)].
  exists lw. rewrite (add_bound filePath name lvl this w lw Hv). simpl.
  unfold QMap_value. rewrite Hv. simpl.
  repeat split; try reflexivity.
  intros lw' H. congruence.
Qed.

(** C9.  [logWriter] returns the registry it was given.  For a name that
    is absent it returns the null pointer and the registry still has no
    entry for that name; for a name bound to a sink it returns that sink. *)
Theorem logWriter_frame (name : string) (this : QLoggerManager) :
  snd (logWriter name this) = this /\
  (m_loggers this !! name = None ->
   fst (logWriter name this) = None /\
   m_loggers (snd (logWriter name this)) !! name = None) /\
  (forall lw : QLoggerWriter,
     m_loggers this !! name = Some (Some lw) ->
     fst (logWriter name this) = Some lw).
Proof.
  unfold logWriter, QMap_value. simpl.
  split; [reflexivity|]. split.
  - intros H. rewrite H. split; reflexivity.
  - intros lw H. rewrite H. reflexivity.
Qed.

(** ** Logging on a channel *)

Lemma getInstance_loggers (p : Process) :
  m_loggers (fst (getInstance p)) = loggersOf p /\
  m_instance (snd (getInstance p)) = Some (fst (getInstance p)) /\
  world (snd (getInstance p)) = world p /\
  (forall manager : QLoggerManager,
     m_instance p = Some manager -> getInstance p = (manager, p)).
Proof.
  unfold getInstance, getInstancePointer, loggersOf.
  destruct (m_instance p) as [manager|] eqn:E; simpl; repeat split; auto.
  - intros manager' H. congruence.
  - intros manager H. discriminate.
Qed.

(** C6.  On a channel name that the registry does not bind to a sink,
    [log] hands one diagnostic to the console, the text of which contains
    the name, and does nothing else: the files, the clock and the
    channel-to-sink mapping are as before, and a registry that existed is
    the same registry afterwards.  [log] is a total function: the call
    returns, for every message and every level. *)
Theorem log_unknown_channel (name message : string) (lvl : LogLevel) (p : Process) :
  ~ registered name p ->
  world (log name message lvl p)
  = qDebug ("QLogger : " +:+ name +:+ " n'est pas enregistré dans QLoggerManager.")
      (world p) /\
  files (world (log name message lvl p)) = files (world p) /\
  ticks (world (log name message lvl p)) = ticks (world p) /\
  loggersOf (log name message lvl p) = loggersOf p /\
  (forall manager : QLoggerManager,
     m_instance p = Some manager ->
     m_instance (log name message lvl p) = Some manager).
Proof.
  intros Hnot.
  unfold log, QLoggerManager_log, privateLog.
  destruct (getInstance_loggers p) as (Hl & Hi & Hw & Hsame).
  destruct (getInstance p) as [manager p'] eqn:E. simpl in Hl, Hi, Hw.
  unfold logWriter, QMap_value. rewrite Hl.
  destruct (loggersOf p !! name) as [[lw|]|] eqn:Hn.
  - exfalso. apply Hnot. exists lw. exact Hn.
  - simpl. rewrite notRegistered_text, Hw. unfold loggersOf at 1. simpl.
    repeat split; auto.
    intros manager' H. specialize (Hsame manager' H). congruence.
  - simpl. rewrite notRegistered_text, Hw. unfold loggersOf at 1. simpl.
    repeat split; auto.
    intros manager' H. specialize (Hsame manager' H). congruence.
Qed.

(** A [log] on a registered channel stores back the sink it found. *)
Lemma privateLog_loggers (name message : string) (lvl : LogLevel) (p : Process) :
  loggersOf (privateLog name message lvl p) = loggersOf p.
Proof.
  unfold privateLog.
  destruct (getInstance_loggers p) as (Hl & Hi & Hw & Hsame).
  destruct (getInstance p) as [manager p'] eqn:E. simpl in Hl, Hi, Hw.
  unfold logWriter, QMap_value.
  destruct (m_loggers manager !! name) as [[lw|]|] eqn:Hn; simpl.
  - pose proof (write_this lw message lvl (world p')) as Hthis.
    destruct (write lw message lvl (world p')) as [lw' w']. simpl in Hthis. subst lw'.
    unfold loggersOf at 1. simpl. rewrite (insert_id _ _ _ Hn). exact Hl.
  - unfold loggersOf at 1. simpl. exact Hl.
  - unfold loggersOf at 1. simpl. exact Hl.
Qed.

(** ** More on the registry: insert, lookup, remove *)

Lemma manager_eq (this : QLoggerManager) (m : gmap string (option QLoggerWriter)) :
  m = m_loggers this -> {| m_loggers := m |} = this.
Proof. intros ->. destruct this. reflexivity. Qed.

(** X1.  [add] with a name that the registry does not hold inserts a sink
    that a lookup then returns: the sink has the path and the level given
    and the defaults of the constructor (no size limit, timestamp on,
    format [yyyy-MM-dd-hh-mm-ss]).  The bindings of all other names are as
    they were, the world is untouched (no diagnostic), and the null entry
    that [operator[]] creates on the way is gone. *)
Theorem add_then_logWriter (filePath name : string) (lvl : LogLevel)
  (this : QLoggerManager) (w : World) :
  m_loggers this !! name = None ->
  fst (logWriter name (fst (add filePath name lvl this w)))
  = Some {| m_filePath := filePath; m_fileSizeLimit := 0%Z;
            m_saveDatetime := true;
            m_datetimeFormat := "yyyy-MM-dd-hh-mm-ss";
            m_level := lvl |} /\
  snd (add filePath name lvl this w) = w /\
  (forall other : string,
     other <> name ->
     m_loggers (fst (add filePath name lvl this w)) !! other
     = m_loggers this !! other) /\
  (forall other : string,
     m_loggers this !! other <> Some None ->
     m_loggers (fst (add filePath name lvl this w)) !! other <> Some None).
Proof.
  intros Hfresh. rewrite (add_fresh filePath name lvl this w Hfresh). simpl.
  unfold QMap_value. rewrite lookup_insert_eq. simpl.
  split; [reflexivity|]. split; [reflexivity|]. split.
  - intros other Hne. rewrite lookup_insert_ne by congruence. reflexivity.
  - intros other Hother. destruct (decide (name = other)) as [->|Hne].
    + rewrite lookup_insert_eq. discriminate.
    + rewrite lookup_insert_ne by exact Hne. exact Hother.
Qed.

(** X2.  After [remove] a lookup of the name returns the null pointer, the
    bindings of all other names are as they were, and removing a name that
    the registry does not hold leaves the registry as it was. *)
Theorem remove_then_logWriter (name : string) (this : QLoggerManager) :
  fst (logWriter name (remove name this)) = None /\
  (forall other : string,
     other <> name ->
     fst (logWriter other (remove name this)) = fst (logWriter other this)) /\
  (m_loggers this !! name = None -> remove name this = this).
Proof.
  unfold logWriter, remove, QMap_value. simpl.
  split; [rewrite lookup_delete_eq; reflexivity|]. split.
  - intros other Hne. rewrite lookup_delete_ne by congruence. reflexivity.
  - intros Habsent. apply manager_eq. apply delete_id. exact Habsent.
Qed.

(** X3.  Registering a name that was absent and removing it again gives
    back the registry one started from. *)
Theorem add_then_remove (filePath name : string) (lvl : LogLevel)
  (this : QLoggerManager) (w : World) :
  m_loggers this !! name = None ->
  remove name (fst (add filePath name lvl this w)) = this.
Proof.
  intros Hfresh. rewrite (add_fresh filePath name lvl this w Hfresh).
  unfold remove. simpl. apply manager_eq.
  rewrite delete_insert_eq. apply delete_id. exact Hfresh.
Qed.

(** X4.  In a registry that the public operations have produced, the
    names a lookup finds are exactly the keys of the map: no key is bound
    to a null pointer. *)
Theorem reachable_lookup_iff_key (name : string) (this : QLoggerManager) :
  reachable this ->
  (is_Some (m_loggers this !! name) <-> is_Some (fst (logWriter name this))).
Proof.
  intros Hreach. unfold logWriter, QMap_value. simpl.
  pose proof (reachable_no_null this Hreach name) as Hnull.
  destruct (m_loggers this !! name) as [[lw|]|]; simpl.
  - split; eauto.
  - congruence.
  - split; intros [x Hx]; discriminate.
Qed.

(** ** More on the static entry points *)

Lemma process_eq (p : Process) (manager : QLoggerManager) (w : World) :
  m_instance p = Some manager -> w = world p ->
  {| m_instance := Some manager; world := w |} = p.
Proof. intros H ->. destruct p. simpl in H. rewrite H. reflexivity. Qed.

Lemma privateLog_unbound (name message : string) (lvl : LogLevel) (p : Process) :
  ~ registered name p ->
  privateLog name message lvl p
  = {| m_instance := Some (fst (getInstance p));
       world := qDebug ("QLogger : " +:+ name
                        +:+ " n'est pas enregistré dans QLoggerManager.") (world p) |}.
Proof.
  intros Hnot. unfold privateLog.
  destruct (getInstance_loggers p) as (Hl & _ & Hw & _).
  destruct (getInstance p) as [manager p'] eqn:E. simpl in Hl, Hw.
  unfold logWriter, QMap_value. rewrite Hl.
  destruct (loggersOf p !! name) as [[lw|]|] eqn:Hn; simpl.
  - exfalso. apply Hnot. exists lw. exact Hn.
  - rewrite notRegistered_text, Hw. reflexivity.
  - rewrite notRegistered_text, Hw. reflexivity.
Qed.

(** X5.  [setLimitSize] on a registered channel changes the size limit of
    that channel's sink and nothing else: the other four fields of the
    sink, the sinks of all other channels and the world are as before. *)
Theorem setLimitSize_registered (size : Z) (name : string) (p : Process)
  (lw : QLoggerWriter) :
  loggersOf p !! name = Some (Some lw) ->
  loggersOf (setLimitSize size name p) !! name
  = Some (Some {| m_filePath := m_filePath lw; m_fileSizeLimit := size;
                  m_saveDatetime := m_saveDatetime lw;
                  m_datetimeFormat := m_datetimeFormat lw;
                  m_level := m_level lw |}) /\
  (forall other : string,
     other <> name ->
     loggersOf (setLimitSize size name p) !! other = loggersOf p !! other) /\
  world (setLimitSize size name p) = world p.
Proof.
  intros Hbound. unfold setLimitSize, QLoggerManager_setLimitSize.
  destruct (getInstance_loggers p) as (Hl & _ & Hw & _).
  destruct (getInstance p) as [manager p'] eqn:E. simpl in Hl, Hw.
  unfold logWriter, QMap_value. rewrite Hl, Hbound. simpl.
  unfold loggersOf at 1 2. simpl. rewrite lookup_insert_eq.
  split; [reflexivity|]. split; [|exact Hw].
  intros other Hne. rewrite lookup_insert_ne by congruence. rewrite Hl. reflexivity.
Qed.

(** X6.  [setLimitSize] on a channel that is not registered hands one
    diagnostic naming the channel to the console and changes neither a
    sink nor a file. *)
Theorem setLimitSize_unknown (size : Z) (name : string) (p : Process) :
  ~ registered name p ->
  world (setLimitSize size name p)
  = qDebug ("QLogger : " +:+ name +:+ " n'est pas enregistré dans QLoggerManager.")
      (world p) /\
  loggersOf (setLimitSize size name p) = loggersOf p.
Proof.
  intros Hnot. unfold setLimitSize, QLoggerManager_setLimitSize.
  destruct (getInstance_loggers p) as (Hl & _ & Hw & _).
  destruct (getInstance p) as [manager p'] eqn:E. simpl in Hl, Hw.
  unfold logWriter, QMap_value. rewrite Hl.
  destruct (loggersOf p !! name) as [[lw|]|] eqn:Hn; simpl.
  - exfalso. apply Hnot. exists lw. exact Hn.
  - rewrite notRegistered_text, Hw. unfold loggersOf at 1. simpl. auto.
  - rewrite notRegistered_text, Hw. unfold loggersOf at 1. simpl. auto.
Qed.

(** X7.  A [log] below the minimum level of a registered channel leaves
    the whole process as it was: registry, files, console and clock. *)
Theorem log_below_level_identity (name message : string) (lvl : LogLevel)
  (p : Process) (manager : QLoggerManager) (lw : QLoggerWriter) :
  m_instance p = Some manager ->
  m_loggers manager !! name = Some (Some lw) ->
  (lvl < m_level lw)%Z ->
  log name message lvl p = p.
Proof.
  intros Hinst Hbound Hlt.
  unfold log, QLoggerManager_log, privateLog.
  destruct (getInstance_loggers p) as (_ & _ & _ & Hsame).
  rewrite (Hsame manager Hinst).
  unfold logWriter, QMap_value. rewrite Hbound. simpl.
  assert (write lw message lvl (world p) = (lw, world p)) as ->.
  { unfold write. rewrite Z.gtb_ltb.
    destruct (Z.ltb_spec lvl (m_level lw)) as [_|?]; [reflexivity|lia]. }
  apply process_eq; [|reflexivity].
  rewrite Hinst. f_equal. unfold assign. symmetry. apply manager_eq.
  apply insert_id. exact Hbound.
Qed.

(** X8.  No [log], whatever the channel, the message, the level and the
    outcome (unknown channel, filtered, empty path, file that cannot be
    opened, line appended), changes the channel-to-sink mapping. *)
Theorem log_keeps_registry (name message : string) (lvl : LogLevel) (p : Process) :
  loggersOf (log name message lvl p) = loggersOf p.
Proof.
  unfold log, QLoggerManager_log, privateLog.
  destruct (getInstance_loggers p) as (Hl & _ & _ & _).
  destruct (getInstance p) as [manager p'] eqn:E. simpl in Hl.
  unfold logWriter, QMap_value.
  destruct (m_loggers manager !! name) as [[lw|]|] eqn:Hn; simpl.
  - pose proof (write_this lw message lvl (world p')) as Hthis.
    destruct (write lw message lvl (world p')) as [lw' w']. simpl in Hthis. subst lw'.
    unfold loggersOf at 1. simpl. rewrite (insert_id _ _ _ Hn). exact Hl.
  - exact Hl.
  - exact Hl.
Qed.

(** X9.  Once a channel has been removed, a [log] on it writes to no
    file: the call reports the channel as not registered and the mapping
    keeps no trace of the name. *)
Theorem remove_then_log (name message : string) (lvl : LogLevel)
  (manager : QLoggerManager) (w : World) :
  log name message lvl {| m_instance := Some (remove name manager); world := w |}
  = {| m_instance := Some (remove name manager);
       world := qDebug ("QLogger : " +:+ name
                        +:+ " n'est pas enregistré dans QLoggerManager.") w |} /\
  loggersOf (log name message lvl
               {| m_instance := Some (remove name manager); world := w |}) !! name
  = None.
Proof.
  assert (~ registered name {| m_instance := Some (remove name manager); world := w |})
    as Hnot.
  { intros [lw Hlw]. unfold loggersOf in Hlw. simpl in Hlw.
    rewrite lookup_delete_eq in Hlw. discriminate. }
  unfold log, QLoggerManager_log.
  rewrite (privateLog_unbound name message lvl _ Hnot). simpl.
  split; [reflexivity|]. unfold loggersOf. simpl. apply lookup_delete_eq.
Qed.

(** X10.  [getInstance] builds the registry at most once when one thread
    runs alone: a second call returns the registry of the first and
    changes nothing, a call never touches the world, and a registry that
    exists is returned with its bindings. *)
Theorem getInstance_idempotent (p : Process) :
  getInstance (snd (getInstance p)) = getInstance p /\
  m_instance (snd (getInstance p)) = Some (fst (getInstance p)) /\
  world (snd (getInstance p)) = world p /\
  loggersOf (snd (getInstance p)) = loggersOf p /\
  (m_instance p = None -> fst (getInstance p) = newQLoggerManager).
Proof.
  unfold getInstance, getInstancePointer, loggersOf.
  destruct (m_instance p) as [manager|] eqn:E; simpl; rewrite ?E; simpl;
    repeat split; auto; discriminate.
Qed.

(** ** More on [write] and the rotation check *)

(** The world that [write] leaves, with the rotation check kept apart. *)
Lemma write_world (this : QLoggerWriter) (message : string) (lvl : LogLevel)
  (w : World) :
  let w1 := snd (checkFileSizeLimit this w) in
  let line := lineOf this (clock w1 (ticks w1)) lvl message in
  let w2 := if m_saveDatetime this then snd (currentDateTime w1) else w1 in
  let w3 := if QT_DEBUG then qDebug line w2 else w2 in
  snd (write this message lvl w)
  = if (m_level this >? lvl)%Z then w
    else if isEmpty (m_filePath this)
    then qDebug "QLogger : Le lien du fichier ne peut être vide." w
    else match denied w !! fileKey this w with
         | Some err =>
             qDebug (arg (arg "QLogger : Impossible d'ouvrir le fichier %1, Erreur : %2."
                            (m_filePath this)) err) w3
         | None =>
             setFiles (<[fileKey this w := contentOf this w1 +:+ line +:+ endl]> (files w1))
               w3
         end.
Proof.
  intros w1 line w2 w3. unfold write.
  destruct (m_level this >? lvl)%Z; [reflexivity|].
  destruct (isEmpty (m_filePath this)); [reflexivity|].
  pose proof (checkFileSizeLimit_this this w) as Hthis.
  pose proof (checkFileSizeLimit_frame this w) as (Hcwd & Hden & _ & _).
  fold w1 in Hcwd, Hden.
  subst w3 w2 line. unfold lineOf, contentOf, fileKey, absoluteFilePath.
  destruct (checkFileSizeLimit this w) as [this' w1'] eqn:E.
  simpl in Hthis. subst this'. subst w1. simpl in *.
  destruct (m_saveDatetime this); destruct QT_DEBUG;
    unfold QFile_append, absoluteFilePath; simpl;
    rewrite ?Hcwd, ?Hden;
    destruct (denied w !! QDir_absoluteFilePath (cwd w) (m_filePath this));
    simpl; rewrite ?Hcwd, ?app_assoc_string; reflexivity.
Qed.

Lemma QFile_rename_files (p newName : string) (w : World) (content : string) :
  files w !! absoluteFilePath w p = Some content ->
  (files w !! absoluteFilePath w newName = None ->
   files (QFile_rename p newName w)
   = <[absoluteFilePath w newName := content]> (delete (absoluteFilePath w p) (files w))) /\
  (is_Some (files w !! absoluteFilePath w newName) ->
   files (QFile_rename p newName w) = files w).
Proof.
  intros Hfile. unfold QFile_rename. rewrite Hfile. split.
  - intros ->. reflexivity.
  - intros [other ->]. reflexivity.
Qed.

Lemma checkFileSizeLimit_idle (this : QLoggerWriter) (w : World) :
  (fileSizeLimit this <= 0)%Z \/
  (QFileInfo_size w (m_filePath this) < fileSizeLimit this)%Z ->
  checkFileSizeLimit this w = (this, w).
Proof.
  intros H. unfold checkFileSizeLimit.
  destruct (Z.leb_spec (fileSizeLimit this) 0) as [?|Hpos]; [reflexivity|].
  destruct (Z.geb_spec (QFileInfo_size w (m_filePath this)) (fileSizeLimit this))
    as [?|?]; [lia|reflexivity].
Qed.

Lemma checkFileSizeLimit_due (this : QLoggerWriter) (w : World) (content : string) :
  files w !! fileKey this w = Some content ->
  (0 < fileSizeLimit this <= Z.of_nat (String.length content))%Z ->
  let target := absoluteFilePath w (rotatedPath this (clock w (ticks w)) w) in
  ticks (snd (checkFileSizeLimit this w)) = S (ticks w) /\
  (files w !! target = None ->
   files (snd (checkFileSizeLimit this w))
   = <[target := content]> (delete (fileKey this w) (files w))) /\
  (is_Some (files w !! target) ->
   files (snd (checkFileSizeLimit this w)) = files w).
Proof.
  intros Hfile Hsize target. unfold checkFileSizeLimit, QFileInfo_size.
  fold (fileKey this w). rewrite Hfile.
  destruct (Z.leb_spec (fileSizeLimit this) 0) as [?|Hpos]; [lia|].
  destruct (Z.geb_spec (Z.of_nat (String.length content)) (fileSizeLimit this))
    as [Hge|?]; [|lia].
  cbn [currentDateTime snd].
  set (w' := {| cwd := cwd w; files := files w; denied := denied w;
                console := console w; clock := clock w; ticks := S (ticks w) |}).
  set (newName := QDir_absoluteFilePath _ _).
  destruct (QFile_rename_frame (m_filePath this) newName w') as (_ & _ & _ & _ & Hticks).
  split; [exact Hticks|].
  exact (QFile_rename_files (m_filePath this) newName w' content Hfile).
Qed.

(** The rotation check never touches a file other than the sink's. *)
Lemma checkFileSizeLimit_others (this : QLoggerWriter) (w : World)
  (k content : string) :
  k <> fileKey this w ->
  files w !! k = Some content ->
  files (snd (checkFileSizeLimit this w)) !! k = Some content.
Proof.
  intros Hne Hk.
  destruct (Z.leb_spec (fileSizeLimit this) 0) as [Hoff|Hpos].
  { rewrite checkFileSizeLimit_idle by (left; exact Hoff). exact Hk. }
  destruct (Z.ltb_spec (QFileInfo_size w (m_filePath this)) (fileSizeLimit this))
    as [Hsmall|Hbig].
  { rewrite checkFileSizeLimit_idle by (right; exact Hsmall). exact Hk. }
  unfold QFileInfo_size in Hbig. fold (fileKey this w) in Hbig.
  destruct (files w !! fileKey this w) as [mine|] eqn:Hfile; [|lia].
  destruct (checkFileSizeLimit_due this w mine Hfile (conj Hpos Hbig))
    as (_ & Hfree & Htaken).
  destruct (files w !! absoluteFilePath w (rotatedPath this (clock w (ticks w)) w))
    as [other|] eqn:Htarget.
  - rewrite Htaken by eauto. exact Hk.
  - rewrite (Hfree eq_refl).
    rewrite lookup_insert_ne by (intros E; rewrite E in Htarget; congruence).
    rewrite lookup_delete_ne by congruence. exact Hk.
Qed.

Lemma lineOf_plain (this : QLoggerWriter) (now now' : QDateTime) (lvl : LogLevel)
  (message : string) :
  m_saveDatetime this = false ->
  lineOf this now lvl message = lineOf this now' lvl message.
Proof. intros H. unfold lineOf. rewrite H. reflexivity. Qed.

(** Rotation followed by the append, in one accepted [write]. *)
Lemma write_rotation_files (this : QLoggerWriter)
  (message : string) (lvl : LogLevel) (w : World) (content : string) :
  (m_level this <= lvl)%Z ->
  isEmpty (m_filePath this) = false ->
  denied w !! fileKey this w = None ->
  files w !! fileKey this w = Some content ->
  (0 < fileSizeLimit this <= Z.of_nat (String.length content))%Z ->
  let target := absoluteFilePath w (rotatedPath this (clock w (ticks w)) w) in
  files w !! target = None ->
  files (snd (write this message lvl w))
  = <[fileKey this w := lineOf this (clock w (S (ticks w))) lvl message +:+ endl]>
      (<[target := content]> (delete (fileKey this w) (files w))).
Proof.
  intros Hle Hpath Hopen Hfile Hsize target Hfree.
  assert (target <> fileKey this w) as Hne by (intros E; rewrite E in Hfree; congruence).
  pose proof (write_world this message lvl w) as Hw. cbv zeta in Hw.
  rewrite Z.gtb_ltb in Hw.
  destruct (Z.ltb_spec lvl (m_level this)) as [?|_]; [lia|].
  rewrite Hpath, Hopen in Hw.
  destruct (checkFileSizeLimit_due this w content Hfile Hsize) as (Hticks & Hmoved & _).
  fold target in Hmoved. specialize (Hmoved Hfree).
  destruct (checkFileSizeLimit_frame this w) as (_ & _ & _ & Hclock).
  assert (contentOf this (snd (checkFileSizeLimit this w)) = EmptyString) as Hempty.
  { unfold contentOf. rewrite fileKey_rotated, Hmoved.
    rewrite lookup_insert_ne by exact Hne. rewrite lookup_delete_eq. reflexivity. }
  rewrite Hempty, Hclock, Hticks, Hmoved in Hw.
  rewrite Hw. destruct QT_DEBUG; reflexivity.
Qed.

(** X11.  When the file of the sink has reached a positive size limit and
    the rotated name is free, an accepted [write] moves the old content to
    the rotated path and the sink's own path then holds the new line and
    nothing else.  The rotated name carries the first reading of the clock
    and the line, when the timestamp is on, the second. *)
Theorem write_rotates_then_starts_afresh (this : QLoggerWriter)
  (message : string) (lvl : LogLevel) (w : World) (content : string) :
  (m_level this <= lvl)%Z ->
  isEmpty (m_filePath this) = false ->
  denied w !! fileKey this w = None ->
  files w !! fileKey this w = Some content ->
  (0 < fileSizeLimit this <= Z.of_nat (String.length content))%Z ->
  let target := absoluteFilePath w (rotatedPath this (clock w (ticks w)) w) in
  files w !! target = None ->
  files (snd (write this message lvl w)) !! target = Some content /\
  files (snd (write this message lvl w)) !! fileKey this w
  = Some (lineOf this (clock w (S (ticks w))) lvl message +:+ endl) /\
  files (snd (write this message lvl w))
  = <[fileKey this w := lineOf this (clock w (S (ticks w))) lvl message +:+ endl]>
      (<[target := content]> (delete (fileKey this w) (files w))).
Proof.
  intros Hle Hpath Hopen Hfile Hsize target Hfree.
  pose proof (write_rotation_files this message lvl w content
                Hle Hpath Hopen Hfile Hsize Hfree) as E.
  fold target in E. rewrite E.
  assert (fileKey this w <> target) as Hne
    by (intros Heq; rewrite <- Heq in Hfree; congruence).
  split; [|split; [|reflexivity]].
  - rewrite lookup_insert_ne by exact Hne. apply lookup_insert_eq.
  - apply lookup_insert_eq.
Qed.

Lemma write_frame (this : QLoggerWriter) (message : string) (lvl : LogLevel)
  (w : World) :
  cwd (snd (write this message lvl w)) = cwd w /\
  denied (snd (write this message lvl w)) = denied w /\
  clock (snd (write this message lvl w)) = clock w.
Proof.
  rewrite write_world.
  destruct (checkFileSizeLimit_frame this w) as (Hcwd & Hden & _ & Hclock).
  destruct (m_level this >? lvl)%Z; [auto|].
  destruct (isEmpty (m_filePath this)); [simpl; auto|].
  destruct (denied w !! fileKey this w);
    destruct (m_saveDatetime this); destruct QT_DEBUG; simpl; auto.
Qed.

Lemma write_ticks_idle (this : QLoggerWriter) (message : string) (lvl : LogLevel)
  (w : World) :
  (m_level this <= lvl)%Z ->
  isEmpty (m_filePath this) = false ->
  (fileSizeLimit this <= 0)%Z ->
  ticks (snd (write this message lvl w))
  = if m_saveDatetime this then S (ticks w) else ticks w.
Proof.
  intros Hle Hpath Hoff. rewrite write_world.
  rewrite Z.gtb_ltb. destruct (Z.ltb_spec lvl (m_level this)) as [?|_]; [lia|].
  rewrite Hpath. rewrite checkFileSizeLimit_idle by (left; exact Hoff). simpl.
  destruct (denied w !! fileKey this w);
    destruct (m_saveDatetime this); destruct QT_DEBUG; reflexivity.
Qed.

(** X12.  Without a size limit, two accepted writes on the same sink,
    one after the other, leave the file with its former content followed
    by the first line, a line feed, the second line and a line feed, in
    the order of the calls.  With the timestamp on, the two lines carry
    two successive readings of the clock. *)
Theorem write_twice_appends_in_order (this : QLoggerWriter)
  (message1 message2 : string) (lvl1 lvl2 : LogLevel) (w : World) :
  (m_level this <= lvl1)%Z ->
  (m_level this <= lvl2)%Z ->
  isEmpty (m_filePath this) = false ->
  denied w !! fileKey this w = None ->
  (fileSizeLimit this <= 0)%Z ->
  files (snd (write this message2 lvl2 (snd (write this message1 lvl1 w))))
  = <[fileKey this w :=
        contentOf this w
        +:+ lineOf this (clock w (ticks w)) lvl1 message1 +:+ endl
        +:+ lineOf this (clock w (S (ticks w))) lvl2 message2 +:+ endl]>
      (files w).
Proof.
  intros Hle1 Hle2 Hpath Hopen Hoff.
  set (w' := snd (write this message1 lvl1 w)).
  destruct (write_frame this message1 lvl1 w) as (Hcwd & Hden & Hclock).
  fold w' in Hcwd, Hden, Hclock.
  assert (fileKey this w' = fileKey this w) as Hkey
    by (unfold fileKey, absoluteFilePath; rewrite Hcwd; reflexivity).
  assert (files w'
          = <[fileKey this w :=
                contentOf this w +:+ lineOf this (clock w (ticks w)) lvl1 message1 +:+ endl]>
              (files w)) as Hfirst.
  { unfold w'. rewrite (write_accepted_files this message1 lvl1 w Hle1 Hpath Hopen).
    rewrite checkFileSizeLimit_idle by (left; exact Hoff). reflexivity. }
  assert (denied w' !! fileKey this w' = None) as Hopen'
    by (rewrite Hden, Hkey; exact Hopen).
  rewrite (write_accepted_files this message2 lvl2 w' Hle2 Hpath Hopen').
  rewrite checkFileSizeLimit_idle by (left; exact Hoff). cbn [snd].
  unfold contentOf at 1. rewrite Hkey, Hfirst, lookup_insert_eq. cbn [default].
  rewrite insert_insert_eq, Hclock.
  assert (lineOf this (clock w (ticks w')) lvl2 message2
          = lineOf this (clock w (S (ticks w))) lvl2 message2) as ->.
  { unfold w'. rewrite (write_ticks_idle this message1 lvl1 w Hle1 Hpath Hoff).
    destruct (m_saveDatetime this) eqn:Hsave; [reflexivity|].
    apply lineOf_plain. exact Hsave. }
  unfold id. rewrite !app_assoc_string. reflexivity.
Qed.

(** X13.  The file of the sink apart, [write] leaves every file of the
    file system with the content it had, on every branch: no other file is
    overwritten, truncated or removed, by the append or by the rotation. *)
Theorem write_keeps_other_files (this : QLoggerWriter) (message : string)
  (lvl : LogLevel) (w : World) (k content : string) :
  k <> fileKey this w ->
  files w !! k = Some content ->
  files (snd (write this message lvl w)) !! k = Some content.
Proof.
  intros Hne Hk. rewrite write_world.
  pose proof (checkFileSizeLimit_others this w k content Hne Hk) as Hothers.
  destruct (m_level this >? lvl)%Z; [exact Hk|].
  destruct (isEmpty (m_filePath this)); [exact Hk|].
  destruct (denied w !! fileKey this w).
  - destruct (m_saveDatetime this); destruct QT_DEBUG; exact Hothers.
  - cbn [setFiles files]. rewrite lookup_insert_ne by congruence. exact Hothers.
Qed.

(** X14.  The console after an accepted write whose file opens: a build
    without [QT_DEBUG] prints nothing, a build with it prints the line that
    goes to the file, once. *)
Theorem write_console_on_success (this : QLoggerWriter) (message : string)
  (lvl : LogLevel) (w : World) :
  (m_level this <= lvl)%Z ->
  isEmpty (m_filePath this) = false ->
  denied w !! fileKey this w = None ->
  let w1 := snd (checkFileSizeLimit this w) in
  console (snd (write this message lvl w))
  = console w
    ++ (if QT_DEBUG then [lineOf this (clock w1 (ticks w1)) lvl message] else []).
Proof.
  intros Hle Hpath Hopen w1. rewrite write_world.
  rewrite Z.gtb_ltb. destruct (Z.ltb_spec lvl (m_level this)) as [?|_]; [lia|].
  rewrite Hpath, Hopen. fold w1.
  destruct (checkFileSizeLimit_frame this w) as (_ & _ & Hconsole & _).
  fold w1 in Hconsole.
  destruct (m_saveDatetime this); destruct QT_DEBUG; simpl;
    rewrite Hconsole, ?app_nil_r; reflexivity.
Qed.

(** ** The diagnostic of a file that cannot be opened *)

Lemma app_empty_l (b : string) : EmptyString +:+ b = b.
Proof. reflexivity. Qed.







(** ** Level names *)

(** X16.  The names of the six levels are pairwise distinct, so the name
    written in a line determines the level, and ["INVALID"] is the name of
    the values outside 0..5 and of no other. *)
Theorem levelToString_injective (a b : LogLevel) :
  ((0 <= a <= 5)%Z -> (0 <= b <= 5)%Z ->
   levelToString a = levelToString b -> a = b) /\
  (levelToString a = "INVALID" <-> (a < 0 \/ 5 < a)%Z).
Proof.
  split.
  - intros Ha Hb.
    assert (a = 0 \/ a = 1 \/ a = 2 \/ a = 3 \/ a = 4 \/ a = 5)%Z as Ha' by lia.
    assert (b = 0 \/ b = 1 \/ b = 2 \/ b = 3 \/ b = 4 \/ b = 5)%Z as Hb' by lia.
    destruct Ha' as [->|[->|[->|[->|[->| ->]]]]];
      destruct Hb' as [->|[->|[->|[->|[->| ->]]]]];
      simpl; intros E; try reflexivity; discriminate E.
  - split.
    + intros E.
      destruct (Z.ltb_spec a 0) as [?|Hlo]; [left; assumption|].
      destruct (Z.ltb_spec 5 a) as [?|Hhi]; [right; assumption|].
      assert (a = 0 \/ a = 1 \/ a = 2 \/ a = 3 \/ a = 4 \/ a = 5)%Z as Ha' by lia.
      destruct Ha' as [->|[->|[->|[->|[->| ->]]]]]; discriminate E.
    + intros [Hl|Hl].
      * destruct a as [|q|q]; try lia. reflexivity.
      * unfold levelToString.
        destruct a as [|q|q]; try lia.
        do 3 (destruct q as [q|q|]; try lia; try reflexivity).
Qed.

(** ** The rotated path is not the path of the sink *)

Lemma contains_app (c : ascii) (a b : string) :
  contains c (a +:+ b) = contains c a || contains c b.
Proof.
  induction a as [|x a IH]; [reflexivity|].
  rewrite app_String. simpl. rewrite IH. apply orb_assoc.
Qed.

Lemma afterFirst_keeps_free (d c : ascii) (s : string) :
  contains d s = false -> contains d (afterFirst c s) = false.
Proof.
  induction s as [|a s IH]; simpl; [reflexivity|].
  intros H. apply orb_false_iff in H as [Ha Hs].
  destruct (Ascii.eqb a c); [exact Hs|apply IH, Hs].
Qed.

Lemma afterLast_none (c : ascii) (s : string) :
  contains c s = false -> afterLast c s = s.
Proof.
  destruct s as [|a s]; simpl; [reflexivity|].
  intros H. apply orb_false_iff in H as [Ha Hs]. rewrite Hs, Ha. reflexivity.
Qed.

Lemma afterLast_app (c : ascii) (a b : string) :
  afterLast c (a +:+ String c b) = afterLast c b.
Proof.
  induction a as [|x a IH].
  - rewrite app_empty_l. simpl. rewrite Ascii.eqb_refl.
    destruct (contains c b) eqn:E; [reflexivity|].
    symmetry. apply afterLast_none, E.
  - rewrite app_String. simpl. rewrite contains_app. simpl.
    rewrite Ascii.eqb_refl. simpl. rewrite orb_true_r. exact IH.
Qed.

Lemma endsWith_split (c : ascii) (s : string) :
  endsWith c s = true -> exists d : string, s = d +:+ String c EmptyString.
Proof.
  induction s as [|a s IH]; [discriminate|].
  destruct s as [|b s].
  - simpl. intros H. apply Ascii.eqb_eq in H. subst a. exists EmptyString. reflexivity.
  - intros H. destruct (IH H) as [d Hd]. exists (String a d).
    rewrite app_String. f_equal. exact Hd.
Qed.

Lemma fileName_join (dir name : string) :
  fileName (QDir_absoluteFilePath dir name) = fileName name.
Proof.
  unfold QDir_absoluteFilePath, fileName.
  destruct (isAbsolute name); [reflexivity|].
  destruct (endsWith "/" dir) eqn:E.
  - destruct (endsWith_split _ _ E) as [d ->].
    rewrite app_assoc_string, app_String, app_empty_l. apply afterLast_app.
  - change ("/" +:+ name) with (String "/" name). apply afterLast_app.
Qed.

Lemma rotatedName_no_slash (this : QLoggerWriter) (now : QDateTime) :
  contains "/" (toString now "ddMMyyyyhhmmss") = false ->
  contains "/" (rotatedName this now) = false.
Proof.
  intros H. unfold rotatedName, baseName, completeSuffix, fileName.
  rewrite !contains_app, H.
  rewrite beforeFirst_keeps_free by apply afterLast_free.
  rewrite afterFirst_keeps_free by apply afterLast_free.
  reflexivity.
Qed.

Lemma app_empty_r (a : string) : a +:+ EmptyString = a.
Proof.
  induction a as [|x a IH]; [reflexivity|].
  rewrite app_String. f_equal. exact IH.
Qed.

Lemma rotatedName_differs (this : QLoggerWriter) (now : QDateTime) :
  rotatedName this now <> fileName (m_filePath this).
Proof.
  unfold rotatedName, baseName, completeSuffix.
  set (name := fileName (m_filePath this)).
  set (rest := toString now "ddMMyyyyhhmmss" +:+ "." +:+ afterFirst "." name).
  change ("_" +:+ rest) with (String "_" rest).
  destruct (contains "." name) eqn:E.
  - intros H. rewrite (split_at_first "." name E) in H at 2.
    apply String.app_inj in H. discriminate H.
  - destruct (split_without "." name E) as [-> _].
    intros H.
    assert (name +:+ String "_" rest = name +:+ EmptyString) as H'
      by (rewrite app_empty_r; exact H).
    apply String.app_inj in H'. discriminate H'.
Qed.

(** X17.  When the rendered time holds no slash, the file name of the
    rotated path is the rotated name, which is never the name of the
    sink's file: the rotation check never asks to rename the file onto
    itself. *)
Theorem rotation_target_differs (this : QLoggerWriter) (now : QDateTime) (w : World) :
  contains "/" (toString now "ddMMyyyyhhmmss") = false ->
  fileName (absoluteFilePath w (rotatedPath this now w)) = rotatedName this now /\
  rotatedName this now <> fileName (m_filePath this) /\
  absoluteFilePath w (rotatedPath this now w) <> fileKey this w.
Proof.
  intros Hclean.
  assert (fileName (absoluteFilePath w (rotatedPath this now w)) = rotatedName this now)
    as Hname.
  { unfold absoluteFilePath, rotatedPath. rewrite !fileName_join.
    apply afterLast_none, rotatedName_no_slash, Hclean. }
  split; [exact Hname|]. split; [apply rotatedName_differs|].
  intros E. apply (rotatedName_differs this now).
  rewrite <- Hname, E. unfold fileKey, absoluteFilePath. apply fileName_join.
Qed.

(** ** From registration to the file *)

(** X18.  A channel registered by [add] under a fresh name, with a path
    that is not empty and a file that opens, receives the next [log] at or
    above its level: the file at that path gains one line, made of the
    time rendered with [DATE_FORMAT], the level name and the message, and
    no other file changes.  A sink fresh from [add] has no size limit and
    writes the timestamp. *)
Theorem add_then_log (filePath name message : string) (lvl l : LogLevel)
  (manager : QLoggerManager) (w : World) :
  m_loggers manager !! name = None ->
  isEmpty filePath = false ->
  (lvl <= l)%Z ->
  denied w !! absoluteFilePath w filePath = None ->
  files (world (log name message l
                  {| m_instance := Some (fst (add filePath name lvl manager w));
                     world := w |}))
  = <[absoluteFilePath w filePath :=
        default EmptyString (files w !! absoluteFilePath w filePath)
        +:+ (toString (clock w (ticks w)) DATE_FORMAT +:+ " : "
             +:+ levelToString l +:+ " : " +:+ message)
        +:+ endl]>
      (files w).
Proof.
  intros Hfresh Hpath Hle Hopen.
  rewrite (add_fresh filePath name lvl manager w Hfresh).
  unfold log, QLoggerManager_log, privateLog, getInstance, getInstancePointer.
  cbn [m_instance fst snd world]. unfold logWriter, QMap_value.
  cbn [m_loggers]. rewrite lookup_insert_eq. cbn [default fst snd].
  unfold id. cbv iota.
  set (this := newQLoggerWriterAt filePath lvl).
  pose proof (write_accepted_files this message l w Hle Hpath Hopen) as Hfiles.
  cbv zeta in Hfiles.
  rewrite checkFileSizeLimit_idle in Hfiles by (left; unfold this; simpl; lia).
  destruct (write this message l w) as [this' w'] eqn:E.
  cbn [world]. simpl in Hfiles. rewrite Hfiles. reflexivity.
Qed.

(** ** [log] as a caller of [write] *)

Lemma log_registered (name message : string) (lvl : LogLevel) (p : Process)
  (manager : QLoggerManager) (lw : QLoggerWriter) :
  m_instance p = Some manager ->
  m_loggers manager !! name = Some (Some lw) ->
  log name message lvl p
  = {| m_instance := Some manager; world := snd (write lw message lvl (world p)) |}.
Proof.
  intros Hinst Hbound.
  unfold log, QLoggerManager_log, privateLog.
  destruct (getInstance_loggers p) as (_ & _ & _ & Hsame).
  rewrite (Hsame manager Hinst).
  unfold logWriter, QMap_value. rewrite Hbound. cbn [default fst snd].
  unfold id. cbv iota.
  pose proof (write_this lw message lvl (world p)) as Hthis.
  destruct (write lw message lvl (world p)) as [lw' w'] eqn:E.
  simpl in Hthis. subst lw'. cbn [snd]. f_equal. f_equal.
  unfold assign. apply manager_eq, insert_id, Hbound.
Qed.

(** X22.  On a registered channel, [log] is the [write] of that channel's
    sink and nothing more: the world after the call is the world that
    [write] leaves, and the registry is the registry it was. *)
Theorem log_delegates_to_write (name message : string) (lvl : LogLevel)
  (p : Process) (manager : QLoggerManager) (lw : QLoggerWriter) :
  m_instance p = Some manager ->
  m_loggers manager !! name = Some (Some lw) ->
  world (log name message lvl p) = snd (write lw message lvl (world p)) /\
  m_instance (log name message lvl p) = Some manager.
Proof.
  intros Hinst Hbound.
  rewrite (log_registered name message lvl p manager lw Hinst Hbound).
  split; reflexivity.
Qed.


(** X24.  Each of the six level-bound functions writes its own level
    name: on a registered channel whose sink accepts the level, has a path
    that is not empty, a file that opens and no size limit, the file ends,
    after the call, with the name of the function's level, [" : "], the
    message and a line feed. *)
Theorem facade_writes_own_level (message name : string) (p : Process)
  (manager : QLoggerManager) (lw : QLoggerWriter) :
  m_instance p = Some manager ->
  m_loggers manager !! name = Some (Some lw) ->
  isEmpty (m_filePath lw) = false ->
  denied (world p) !! fileKey lw (world p) = None ->
  (fileSizeLimit lw <= 0)%Z ->
  let ends (p' : Process) (levelName : string) : Prop :=
    exists before : string,
      files (world p') !! fileKey lw (world p)
      = Some (before +:+ levelName +:+ " : " +:+ message +:+ endl) in
  ((m_level lw <= TraceLevel)%Z -> ends (trace message name p) "trace") /\
  ((m_level lw <= DebugLevel)%Z -> ends (debug message name p) "debug") /\
  ((m_level lw <= InfoLevel)%Z -> ends (info message name p) "info") /\
  ((m_level lw <= WarnLevel)%Z -> ends (warning message name p) "warning") /\
  ((m_level lw <= ErrorLevel)%Z -> ends (error message name p) "error") /\
  ((m_level lw <= FatalLevel)%Z -> ends (fatal message name p) "fatal").
Proof.
  intros Hinst Hbound Hpath Hopen Hoff ends.
  assert (forall lvl : LogLevel,
            (m_level lw <= lvl)%Z ->
            ends (log name message lvl p) (levelToString lvl)) as Hlog.
  { intros lvl Hle. unfold ends.
    rewrite (log_registered name message lvl p manager lw Hinst Hbound). cbn [world].
    rewrite (write_accepted_files lw message lvl (world p) Hle Hpath Hopen).
    rewrite checkFileSizeLimit_idle by (left; exact Hoff). cbn [snd].
    rewrite lookup_insert_eq. unfold lineOf.
    destruct (m_saveDatetime lw).
    - exists (contentOf lw (world p)
              +:+ toString (clock (world p) (ticks (world p))) DATE_FORMAT +:+ " : ").
      rewrite !app_assoc_string. reflexivity.
    - exists (contentOf lw (world p)). rewrite !app_assoc_string. reflexivity. }
  repeat split; intros Hle.
  - exact (Hlog TraceLevel Hle).
  - exact (Hlog DebugLevel Hle).
  - exact (Hlog InfoLevel Hle).
  - exact (Hlog WarnLevel Hle).
  - exact (Hlog ErrorLevel Hle).
  - exact (Hlog FatalLevel Hle).
Qed.

End QLogger.

(** ** Concrete runs *)

Example numericToString_DATE_FORMAT :
  numericToString (clock0 0) DATE_FORMAT = "2024-01-05-13-45-09".
Proof. reflexivity. Qed.

Example numericToString_rotation :
  numericToString (clock0 0) "ddMMyyyyhhmmss" = "05012024134509".
Proof. reflexivity. Qed.

Example arg_two_markers :
  arg (arg "QLogger : Impossible d'ouvrir le fichier %1, Erreur : %2."
         "/var/log/app.log") "Permission denied"
  = "QLogger : Impossible d'ouvrir le fichier /var/log/app.log, Erreur : Permission denied.".
Proof. reflexivity. Qed.

(** With the minimum level [WarnLevel]: a message at [InfoLevel] changes
    nothing, a message at [WarnLevel] itself reaches the file. *)
Lemma write_level_filter_witness :
  write numericToString false sinkWarn "x" InfoLevel world0 = (sinkWarn, world0) /\
  exists before : string,
    files (snd (write numericToString false sinkWarn "y" WarnLevel world0))
      !! "/var/log/app.log"
    = Some (before +:+ "warning : y" +:+ endl).
Proof.
  split.
  - apply (proj1 (write_level_filter numericToString false sinkWarn "x" InfoLevel world0)).
    unfold sinkWarn, newQLoggerWriterAt, WarnLevel, InfoLevel; simpl; lia.
  - apply (proj2 (write_level_filter numericToString false sinkWarn "y" WarnLevel world0)).
    + unfold sinkWarn, newQLoggerWriterAt, WarnLevel; simpl; lia.
    + reflexivity.
    + vm_compute. reflexivity.
Defined.

Lemma write_line_format_witness :
  map_to_list (files (snd (write numericToString false sinkPlain "y" ErrorLevel world0)))
  = [("/var/log/app.log", "error : y" +:+ endl)] /\
  map_to_list (files (snd (write numericToString false sinkWarn "y" ErrorLevel world0)))
  = [("/var/log/app.log", "2024-01-05-13-45-09 : error : y" +:+ endl)].
Proof.
  split.
  - assert ((m_level sinkPlain <= ErrorLevel)%Z) as H1 by (unfold sinkPlain, sinkWarn, newQLoggerWriterAt, ErrorLevel, WarnLevel; simpl; lia).
    assert (isEmpty (m_filePath sinkPlain) = false) as H2 by reflexivity.
    assert (denied world0 !! fileKey sinkPlain world0 = None) as H3
      by (vm_compute; reflexivity).
    destruct (write_line_format numericToString false sinkPlain "y" ErrorLevel world0
                H1 H2 H3) as (Hplain & _).
    rewrite (Hplain eq_refl). vm_compute. reflexivity.
  - assert ((m_level sinkWarn <= ErrorLevel)%Z) as H1 by (unfold sinkPlain, sinkWarn, newQLoggerWriterAt, ErrorLevel, WarnLevel; simpl; lia).
    assert (isEmpty (m_filePath sinkWarn) = false) as H2 by reflexivity.
    assert (denied world0 !! fileKey sinkWarn world0 = None) as H3
      by (vm_compute; reflexivity).
    destruct (write_line_format numericToString false sinkWarn "y" ErrorLevel world0
                H1 H2 H3) as (_ & Hstamp & _).
    rewrite (Hstamp eq_refl). vm_compute. reflexivity.
Defined.

Lemma write_empty_path_witness :
  write numericToString false sinkNoPath "x" ErrorLevel worldFull
  = (sinkNoPath, qDebug "QLogger : Le lien du fichier ne peut être vide." worldFull).
Proof.
  apply (write_empty_path numericToString false sinkNoPath "x" ErrorLevel worldFull).
  - reflexivity.
  - unfold sinkNoPath, newQLoggerWriter, DebugLevel, ErrorLevel; simpl; lia.
Defined.

(** The file [/var/log/app.1.log] has reached its limit of ten bytes: it
    is moved to [app_05012024134509.1.log] in the same directory. *)
Lemma checkFileSizeLimit_rotation_witness :
  map_to_list (files (snd (checkFileSizeLimit numericToString sinkRotating worldFull)))
  = [("/var/log/app_05012024134509.1.log", "0123456789")] /\
  checkFileSizeLimit numericToString sinkWarn worldFull = (sinkWarn, worldFull) /\
  checkFileSizeLimit numericToString sinkRotating world0 = (sinkRotating, world0).
Proof.
  destruct (checkFileSizeLimit_rotation numericToString sinkRotating worldFull)
    as (_ & _ & _ & Hmove & _).
  destruct (checkFileSizeLimit_rotation numericToString sinkWarn worldFull)
    as (Hoff & _).
  destruct (checkFileSizeLimit_rotation numericToString sinkRotating world0)
    as (_ & Hmissing & _).
  split; [|split].
  - assert (files worldFull !! fileKey sinkRotating worldFull = Some "0123456789")
      as Hfile by (vm_compute; reflexivity).
    assert ((0 < fileSizeLimit sinkRotating
             <= Z.of_nat (String.length "0123456789"))%Z) as Hsize
      by (unfold sinkRotating, fileSizeLimit; simpl; lia).
    destruct (Hmove "0123456789" Hfile Hsize) as (_ & _ & Hfree & _).
    rewrite Hfree.
    + vm_compute. reflexivity.
    + vm_compute. reflexivity.
  - apply Hoff. unfold sinkWarn, fileSizeLimit. simpl. lia.
  - apply Hmissing. vm_compute. reflexivity.
Defined.

(** C4, as the claim words it, fails on a file name with two dots.  Split
    at the last dot, [app.1.log] would become [app.1_05012024134509.log];
    the rotation check leaves no file of that name and moves the file to
    [app_05012024134509.1.log]. *)
Lemma rotation_splits_at_first_dot :
  files worldFull !! fileKey sinkRotating worldFull = Some "0123456789" /\
  (0 < fileSizeLimit sinkRotating <= Z.of_nat (String.length "0123456789"))%Z /\
  spec_rotatedPath numericToString sinkRotating (clock worldFull (ticks worldFull)) worldFull
  = "/var/log/app.1_05012024134509.log" /\
  files (snd (checkFileSizeLimit numericToString sinkRotating worldFull))
    !! "/var/log/app.1_05012024134509.log" = None /\
  files (snd (checkFileSizeLimit numericToString sinkRotating worldFull))
    !! "/var/log/app_05012024134509.1.log" = Some "0123456789" /\
  files (snd (checkFileSizeLimit numericToString sinkRotating worldFull))
    !! "/var/log/app.1.log" = None.
Proof.
  repeat split; try (vm_compute; reflexivity); vm_compute; discriminate.
Qed.

Lemma add_existing_untouched_witness :
  let registry := fst (add "a.log" "ch" DebugLevel newQLoggerManager world0) in
  fst (add "b.log" "ch" ErrorLevel registry world0) = registry /\
  fst (logWriter "ch" (fst (add "b.log" "ch" ErrorLevel registry world0)))
  = Some (newQLoggerWriterAt "a.log" DebugLevel).
Proof.
  intros registry.
  assert (reachable registry) as Hreach.
  { apply (reachable_step newQLoggerManager); [apply reachable_new|apply step_add]. }
  assert (is_Some (m_loggers registry !! "ch")) as Hbound.
  { exists (Some (newQLoggerWriterAt "a.log" DebugLevel)). vm_compute. reflexivity. }
  destruct (add_existing_untouched numericToString false "b.log" "ch" ErrorLevel
              registry world0 Hreach Hbound)
    as (lw & Hlw & _ & Hsame & _ & _ & Hfind & _).
  split; [exact Hsame|].
  rewrite Hfind. f_equal.
  assert (m_loggers registry !! "ch" = Some (Some (newQLoggerWriterAt "a.log" DebugLevel)))
    as E by (vm_compute; reflexivity).
  congruence.
Defined.

(** Registering [a.log] and then [b.log] under the same name: the line
    goes to [a.log] and no file [b.log] appears. *)
Example duplicate_registration_run :
  let p0 := {| m_instance := None; world := world0 |} in
  let '(manager, p1) := getInstance p0 in
  let '(manager, w) := add "/var/log/a.log" "ch" DebugLevel manager (world p1) in
  let '(manager, w) := add "/var/log/b.log" "ch" DebugLevel manager w in
  let p := log numericToString false "ch" "hello" InfoLevel
             {| m_instance := Some manager; world := w |} in
  map_to_list (files (world p))
  = [("/var/log/a.log", "2024-01-05-13-45-09 : info : hello" +:+ endl)] /\
  console (world p) = ["QLoggerManager::add, ch existe déjà !"].
Proof. vm_compute. split; reflexivity. Qed.

Lemma logWriter_frame_witness :
  let registry := fst (add "a.log" "ch" DebugLevel newQLoggerManager world0) in
  (fst (logWriter "ghost" registry) = None /\
   m_loggers (snd (logWriter "ghost" registry)) !! "ghost" = None) /\
  fst (logWriter "ch" registry) = Some (newQLoggerWriterAt "a.log" DebugLevel).
Proof.
  intros registry.
  split.
  - apply (proj1 (proj2 (logWriter_frame "ghost" registry))).
    vm_compute. reflexivity.
  - apply (proj2 (proj2 (logWriter_frame "ch" registry))).
    vm_compute. reflexivity.
Defined.

(** [operator[]], which [add] uses, does create an entry; [value], which
    [logWriter] uses, does not. *)
Example QMap_index_inserts :
  snd (QMap_index ∅ "ghost") !! "ghost" = Some None /\
  QMap_value ∅ "ghost" = None.
Proof. vm_compute. split; reflexivity. Qed.

Lemma log_unknown_channel_witness :
  let p := {| m_instance := Some (fst (add "a.log" "ch" DebugLevel newQLoggerManager world0));
              world := world0 |} in
  world (log numericToString false "ghost" "msg" InfoLevel p)
  = qDebug "QLogger : ghost n'est pas enregistré dans QLoggerManager." world0 /\
  loggersOf (log numericToString false "ghost" "msg" InfoLevel p) = loggersOf p.
Proof.
  intros p.
  assert (~ registered "ghost" p) as Hnot.
  { intros [lw Hlw]. vm_compute in Hlw. discriminate Hlw. }
  destruct (log_unknown_channel numericToString false "ghost" "msg" InfoLevel p Hnot)
    as (Hworld & _ & _ & Hmap & _).
  split; [exact Hworld|exact Hmap].
Defined.

(** A [log] on a process whose registry has not been built yet builds the
    empty registry and reports the channel as unknown. *)
Example log_before_any_registration :
  log numericToString false "ghost" "msg" InfoLevel {| m_instance := None; world := world0 |}
  = {| m_instance := Some newQLoggerManager;
       world := qDebug "QLogger : ghost n'est pas enregistré dans QLoggerManager." world0 |}.
Proof. reflexivity. Qed.

(** A file that cannot be opened: one diagnostic with the path and the
    error text, no file created, the sink as it was. *)
Example write_open_failure_run :
  write numericToString false sinkWarn "y" ErrorLevel worldDenied
  = (sinkWarn,
     qDebug "QLogger : Impossible d'ouvrir le fichier /var/log/app.log, Erreur : Permission denied."
       (snd (currentDateTime worldDenied))).
Proof. reflexivity. Qed.

(** C3, on the code.  The sink's format has been set to [yyyy], with which
    the clock reading renders as [2024]; the line that [write] appends
    starts with the reading rendered with [DATE_FORMAT] all the same. *)
Theorem write_renders_with_DATE_FORMAT :
  datetimeFormat sinkYear = "yyyy" /\
  m_saveDatetime sinkYear = true /\
  numericToString (clock world0 (ticks world0)) (datetimeFormat sinkYear) = "2024" /\
  map_to_list (files (snd (write numericToString false sinkYear "msg" InfoLevel world0)))
  = [("/var/log/app.log", "2024-01-05-13-45-09 : info : msg" +:+ endl)] /\
  files (snd (write numericToString false sinkYear "msg" InfoLevel world0))
    !! "/var/log/app.log"
  <> Some ("2024 : info : msg" +:+ endl).
Proof.
  repeat split; try (vm_compute; reflexivity).
  vm_compute. discriminate.
Qed.

(** ** The singleton *)

(** One thread running alone builds the registry on its first call and
    finds it again on every later call. *)
Lemma getInstance_twice (p : Process) :
  getInstance (snd (getInstance p)) = (fst (getInstance p), snd (getInstance p)).
Proof.
  unfold getInstance, getInstancePointer.
  destruct (m_instance p) as [manager|] eqn:E; simpl; [rewrite E|]; reflexivity.
Qed.

(** Two threads, one after the other: one construction, one registry. *)
Example getInstancePointer_sequential :
  constructions (runSchedule sequentialSchedule (initialSystem 2)) = 1 /\
  results (runSchedule sequentialSchedule (initialSystem 2)) = [Some 0; Some 0] /\
  destroyed (runSchedule sequentialSchedule (initialSystem 2)) = [].
Proof. vm_compute. repeat split. Qed.

(** C8, on the code.  Two threads enter [getInstancePointer] for the first
    time.  Each locks the mutex of its own activation, so both reach the
    inner test while [m_instance] is still null: the constructor runs
    twice, the first registry is released by the second [reset], and the
    two callers get different objects. *)
Theorem getInstancePointer_race :
  constructions (runSchedule racingSchedule (initialSystem 2)) = 2 /\
  results (runSchedule racingSchedule (initialSystem 2)) = [Some 0; Some 1] /\
  destroyed (runSchedule racingSchedule (initialSystem 2)) = [0] /\
  instance (runSchedule racingSchedule (initialSystem 2)) = Some 1.
Proof. vm_compute. repeat split. Qed.

(** *** The shared lock, for comparison *)

Lemma lookup_updated (l : list Thread) (i j : nat) (t t' tj : Thread) :
  l !! i = Some t ->
  <[i := t']> l !! j = Some tj ->
  (j = i /\ tj = t') \/ (j <> i /\ l !! j = Some tj).
Proof.
  intros Hi Hj.
  destruct (decide (i = j)) as [->|Hne].
  - left. rewrite list_lookup_insert_eq in Hj by (eapply lookup_lt_Some; eauto).
    split; congruence.
  - right. rewrite list_lookup_insert_ne in Hj by exact Hne. auto.
Qed.

Lemma nobody_holds (l : list Thread) (j : nat) (tj : Thread) :
  existsb mutexLocked l = false -> l !! j = Some tj -> mutexLocked tj = false.
Proof.
  revert j. induction l as [|a l IH]; intros j H Hj; [discriminate|].
  simpl in H. apply orb_false_iff in H as [Ha Hl].
  destruct j as [|j]; simpl in Hj.
  - congruence.
  - eapply IH; eauto.
Qed.

Lemma singletonInv_initial (n : nat) : singletonInv (initialSystem n).
Proof.
  unfold singletonInv, initialSystem. simpl.
  split; [left; auto|]. split; [reflexivity|]. split.
  - intros i j ti tj Hi _ Hl _. apply lookup_replicate in Hi as [-> _]. discriminate.
  - intros i t Hi. apply lookup_replicate in Hi as [-> _].
    unfold threadOk, inCritical. simpl.
    repeat split; intros; try discriminate; intuition discriminate.
Qed.

(** A move that touches only the moving thread. *)
Lemma singletonInv_setThread (i : nat) (t t' : Thread) (s : System) :
  singletonInv s ->
  threads s !! i = Some t ->
  (mutexLocked t' = true ->
   mutexLocked t = true \/ existsb mutexLocked (threads s) = false) ->
  threadOk s t' ->
  singletonInv (setThread i t' s).
Proof.
  intros (Hcount & Hdestroyed & Hexcl & Hok) Hi Hlock Hnew.
  unfold singletonInv, setThread. simpl.
  split; [exact Hcount|]. split; [exact Hdestroyed|]. split.
  - intros j k tj tk Hj Hk Lj Lk.
    destruct (lookup_updated _ _ _ _ _ _ Hi Hj) as [[-> ->]|[Hnj Hj']];
      destruct (lookup_updated _ _ _ _ _ _ Hi Hk) as [[-> ->]|[Hnk Hk']].
    + reflexivity.
    + destruct (Hlock Lj) as [Lt|Hnone].
      * exact (Hexcl _ _ _ _ Hi Hk' Lt Lk).
      * rewrite (nobody_holds _ _ _ Hnone Hk') in Lk. discriminate.
    + destruct (Hlock Lk) as [Lt|Hnone].
      * exact (Hexcl _ _ _ _ Hj' Hi Lj Lt).
      * rewrite (nobody_holds _ _ _ Hnone Hj') in Lj. discriminate.
    + exact (Hexcl _ _ _ _ Hj' Hk' Lj Lk).
  - intros j tj Hj.
    destruct (lookup_updated _ _ _ _ _ _ Hi Hj) as [[-> ->]|[Hnj Hj']].
    + exact Hnew.
    + exact (Hok j tj Hj').
Qed.

Lemma spec_stepThread_inv (i : nat) (s s' : System) :
  singletonInv s -> spec_stepThread i s = Some s' -> singletonInv s'.
Proof.
  intros Hinv Hstep.
  pose proof Hinv as (Hcount & Hdestroyed & Hexcl & Hok).
  unfold spec_stepThread in Hstep.
  destruct (threads s !! i) as [t|] eqn:Hi; [|discriminate].
  pose proof (Hok i t Hi) as (Hcrit & Hreset & Hret & Hfin).
  unfold inCritical in Hcrit.
  destruct (pc t) eqn:Hpc; unfold stepThread in Hstep; rewrite ?Hi, ?Hpc in Hstep.
  - (* OuterTest *)
    destruct (instance s) as [k|] eqn:Hinst; inversion Hstep; subst s'; clear Hstep;
      apply (singletonInv_setThread i t); auto; try (simpl; discriminate);
      unfold threadOk, inCritical; simpl; rewrite Hinst;
      repeat split; intros; try discriminate; try intuition discriminate.
  - (* Lock *)
    destruct (existsb mutexLocked (threads s)) eqn:Hnone; [discriminate|].
    inversion Hstep; subst s'; clear Hstep.
    apply (singletonInv_setThread i t); auto.
    unfold threadOk, inCritical; simpl.
    repeat split; intros; try discriminate; try intuition discriminate.
  - (* InnerTest *)
    destruct (instance s) as [k|] eqn:Hinst; inversion Hstep; subst s'; clear Hstep;
      apply (singletonInv_setThread i t); auto;
      unfold threadOk, inCritical; simpl; rewrite Hinst;
      repeat split; intros; try discriminate; try intuition discriminate; auto.
  - (* Reset *)
    inversion Hstep; subst s'; clear Hstep.
    specialize (Hreset eq_refl).
    destruct Hcount as [[_ Hzero]|[Hsome _]]; [|congruence].
    unfold singletonInv. simpl. rewrite Hreset, Hzero.
    split; [right; auto|]. split; [exact Hdestroyed|]. split.
    + intros j k tj tk Hj Hk Lj Lk.
      assert (mutexLocked t = true) as Lt by auto.
      destruct (lookup_updated _ _ _ _ _ _ Hi Hj) as [[-> ->]|[Hnj Hj']];
        destruct (lookup_updated _ _ _ _ _ _ Hi Hk) as [[-> ->]|[Hnk Hk']].
      * reflexivity.
      * exact (Hexcl _ _ _ _ Hi Hk' Lt Lk).
      * exact (Hexcl _ _ _ _ Hj' Hi Lj Lt).
      * exact (Hexcl _ _ _ _ Hj' Hk' Lj Lk).
    + intros j tj Hj.
      destruct (lookup_updated _ _ _ _ _ _ Hi Hj) as [[-> ->]|[Hnj Hj']].
      * unfold threadOk, inCritical; simpl.
        repeat split; intros; try discriminate; auto.
      * destruct (Hok j tj Hj') as (Hc & Hr & Hu & Hf).
        unfold threadOk, inCritical in *; simpl.
        repeat split; intros; auto.
        exfalso. apply Hnj.
        apply (Hexcl _ _ _ _ Hj' Hi); auto.
  - (* Unlock *)
    inversion Hstep; subst s'; clear Hstep.
    apply (singletonInv_setThread i t); auto; try (simpl; discriminate).
    unfold threadOk, inCritical; simpl.
    repeat split; intros; try discriminate; try intuition discriminate; auto.
  - (* Return *)
    inversion Hstep; subst s'; clear Hstep.
    apply (singletonInv_setThread i t); auto.
    unfold threadOk, inCritical; simpl.
    repeat split; intros; try discriminate; try intuition discriminate.
    match goal with H : Finished _ = Finished _ |- _ => inversion H end. auto.
  - (* Finished *)
    discriminate.
Qed.

Lemma spec_runSchedule_inv (schedule : list nat) (s : System) :
  singletonInv s -> singletonInv (spec_runSchedule schedule s).
Proof.
  revert s. induction schedule as [|i rest IH]; intros s Hinv; simpl; [exact Hinv|].
  apply IH. destruct (spec_stepThread i s) as [s'|] eqn:E; simpl; [|exact Hinv].
  exact (spec_stepThread_inv i s s' Hinv E).
Qed.

(** With the shared lock, whatever the number of threads and the schedule,
    the constructor runs at most once, no registry is released and every
    caller that has returned holds the first and only registry. *)
Theorem spec_getInstancePointer_safe (n : nat) (schedule : list nat) :
  constructions (spec_runSchedule schedule (initialSystem n)) <= 1 /\
  destroyed (spec_runSchedule schedule (initialSystem n)) = [] /\
  (forall r : option nat,
     r ∈ results (spec_runSchedule schedule (initialSystem n)) -> r = Some 0).
Proof.
  destruct (spec_runSchedule_inv schedule (initialSystem n) (singletonInv_initial n))
    as (Hcount & Hdestroyed & _ & Hok).
  split; [destruct Hcount as [[_ ->]|[_ ->]]; lia|].
  split; [exact Hdestroyed|].
  intros r Hr. unfold results in Hr.
  apply list_elem_of_omap in Hr as (t & Ht & Hpc).
  apply list_elem_of_lookup in Ht as [i Hi].
  destruct (Hok i t Hi) as (_ & _ & _ & Hfin).
  destruct (pc t); try discriminate. inversion Hpc; subst. auto.
Qed.

(** The schedule of the race, under the shared lock: the second thread
    waits at [Lock] and then finds the registry built. *)
Example spec_getInstancePointer_same_schedule :
  constructions (spec_runSchedule racingSchedule (initialSystem 2)) = 1 /\
  destroyed (spec_runSchedule racingSchedule (initialSystem 2)) = [].
Proof. vm_compute. split; reflexivity. Qed.

(** ** More on the singleton under concurrent callers *)

Lemma runSchedule_app (a b : list nat) (s : System) :
  runSchedule (a ++ b) s = runSchedule b (runSchedule a s).
Proof.
  revert s. induction a as [|i a IH]; intros s; simpl; [reflexivity|apply IH].
Qed.

(** A thread at [Lock] has its own mutex free, in every state that a
    schedule reaches. *)
Lemma lock_is_free (schedule : list nat) (s : System) :
  (forall (i : nat) (t : Thread),
     threads s !! i = Some t -> pc t = Lock -> mutexLocked t = false) ->
  forall (i : nat) (t : Thread),
    threads (runSchedule schedule s) !! i = Some t ->
    pc t = Lock -> mutexLocked t = false.
Proof.
  revert s. induction schedule as [|k rest IH]; intros s Hinv; simpl; [exact Hinv|].
  apply IH. clear IH.
  destruct (stepThread k s) as [s'|] eqn:E; simpl; [|exact Hinv].
  unfold stepThread in E.
  destruct (threads s !! k) as [tk|] eqn:Hk; [|discriminate].
  intros i t Hi Hpc.
  destruct (pc tk) eqn:Hpck;
    try destruct (instance s);
    try destruct (mutexLocked tk) eqn:Hl;
    inversion E; subst s'; clear E; simpl in Hi;
    destruct (lookup_updated _ _ _ _ _ _ Hk Hi) as [[-> ->]|[Hne Hi']];
    simpl in Hpc; try discriminate; try reflexivity; eauto.
Qed.

(** X19.  The locker of [getInstancePointer] never makes a caller wait:
    whatever the number of threads and the schedule, every thread that
    has not returned yet can make its next move, also at [Lock]. *)
Theorem local_mutex_never_blocks (n : nat) (schedule : list nat) (i : nat)
  (t : Thread) :
  threads (runSchedule schedule (initialSystem n)) !! i = Some t ->
  (forall r : option nat, pc t <> Finished r) ->
  is_Some (stepThread i (runSchedule schedule (initialSystem n))).
Proof.
  intros Hi Hrun.
  assert (pc t = Lock -> mutexLocked t = false) as Hfree.
  { apply (lock_is_free schedule (initialSystem n)) with (i := i); [|exact Hi].
    intros j tj Hj Hpc. simpl in Hj. apply lookup_replicate in Hj as [-> _].
    discriminate Hpc. }
  unfold stepThread. rewrite Hi.
  destruct (pc t) eqn:Hpc; try destruct (instance _); eauto.
  - rewrite Hfree by reflexivity. eauto.
  - exfalso. exact (Hrun _ eq_refl).
Qed.

Lemma insert_middle (k : nat) (x t t' : Thread) (back : list Thread) :
  <[k := t']> (replicate k x ++ t :: back) = replicate k x ++ t' :: back.
Proof. induction k as [|k IH]; simpl; [reflexivity|]. f_equal. exact IH. Qed.

Lemma lookup_middle (k : nat) (x t : Thread) (back : list Thread) :
  (replicate k x ++ t :: back) !! k = Some t.
Proof. induction k as [|k IH]; simpl; auto. Qed.

Lemma replicate_snoc (k : nat) (x : Thread) :
  replicate k x ++ [x] = replicate (S k) x.
Proof. induction k as [|k IH]; simpl; [reflexivity|]. f_equal. exact IH. Qed.

Lemma shift_one (k : nat) (x : Thread) (back : list Thread) :
  replicate k x ++ x :: back = replicate (S k) x ++ back.
Proof. rewrite <- replicate_snoc, <- app_assoc. reflexivity. Qed.

Lemma run_cons (i : nat) (rest : list nat) (s s' : System) :
  stepThread i s = Some s' -> runSchedule (i :: rest) s = runSchedule rest s'.
Proof. intros H. simpl. rewrite H. reflexivity. Qed.

Ltac step_middle :=
  unfold stepThread; cbn [threads]; rewrite lookup_middle;
  cbn [pc mutexLocked instance constructions destroyed];
  try unfold setThread; cbn [threads instance constructions destroyed];
  rewrite insert_middle; reflexivity.

Lemma enter_one (k c : nat) (d : list nat) (back : list Thread) :
  runSchedule [k; k; k]
    {| instance := None; constructions := c; destroyed := d;
       threads := replicate k {| pc := Reset; mutexLocked := true |}
                  ++ {| pc := OuterTest; mutexLocked := false |} :: back |}
  = {| instance := None; constructions := c; destroyed := d;
       threads := replicate k {| pc := Reset; mutexLocked := true |}
                  ++ {| pc := Reset; mutexLocked := true |} :: back |}.
Proof.
  erewrite run_cons by step_middle.
  erewrite run_cons by step_middle.
  erewrite run_cons by step_middle.
  reflexivity.
Qed.

(** The first phase of the race: while [m_instance] is null, every thread
    gets to the [reset]. *)
Lemma enter_phase (m k : nat) (back : list Thread) (d : list nat) (c : nat) :
  runSchedule (flat_map (fun i => [i; i; i]) (seq k m))
    {| instance := None; constructions := c; destroyed := d;
       threads := replicate k {| pc := Reset; mutexLocked := true |}
                  ++ replicate m {| pc := OuterTest; mutexLocked := false |}
                  ++ back |}
  = {| instance := None; constructions := c; destroyed := d;
       threads := replicate (k + m) {| pc := Reset; mutexLocked := true |} ++ back |}.
Proof.
  revert k. induction m as [|m IH]; intros k.
  - simpl. rewrite Nat.add_0_r. reflexivity.
  - change (flat_map (fun i => [i; i; i]) (seq k (S m)))
      with ([k; k; k] ++ flat_map (fun i => [i; i; i]) (seq (S k) m)).
    rewrite runSchedule_app.
    change (replicate (S m) {| pc := OuterTest; mutexLocked := false |} ++ back)
      with ({| pc := OuterTest; mutexLocked := false |}
            :: (replicate m {| pc := OuterTest; mutexLocked := false |} ++ back)).
    rewrite enter_one, shift_one, (IH (S k)).
    replace (S k + m) with (k + S m) by lia. reflexivity.
Qed.

(** The second phase: every thread at [Reset] builds a registry. *)
Lemma reset_phase (m k : nat) (s : System) :
  threads s = replicate k {| pc := Unlock; mutexLocked := true |}
              ++ replicate m {| pc := Reset; mutexLocked := true |} ->
  constructions (runSchedule (seq k m) s) = constructions s + m /\
  (0 < m -> instance (runSchedule (seq k m) s) = Some (constructions s + m - 1)).
Proof.
  revert k s. induction m as [|m IH]; intros k s Hthreads.
  - simpl. split; lia.
  - cbn [seq].
    erewrite run_cons
      by (unfold stepThread; rewrite Hthreads; cbn [replicate];
          rewrite lookup_middle; cbn [pc mutexLocked]; rewrite insert_middle, shift_one;
          reflexivity).
    match goal with |- context [runSchedule _ ?s'] =>
      destruct (IH (S k) s' eq_refl) as [Hc Hi] end.
    cbn [constructions] in Hc, Hi.
    split; [rewrite Hc; lia|].
    intros _. destruct m as [|m].
    + simpl. f_equal. lia.
    + rewrite Hi by lia. f_equal. lia.
Qed.

(** X20.  With [n] threads calling [getInstancePointer] for the first time
    at once, there is a schedule under which the constructor runs [n]
    times: all threads pass the two tests while [m_instance] is null, then
    each one resets it.  The pointer ends on the registry built last. *)
Theorem getInstancePointer_race_all (n : nat) :
  constructions (runSchedule (raceAll n) (initialSystem n)) = n /\
  (0 < n -> instance (runSchedule (raceAll n) (initialSystem n)) = Some (n - 1)).
Proof.
  unfold raceAll, enterAll. rewrite runSchedule_app.
  pose proof (enter_phase n 0 [] [] 0) as Henter.
  cbn [replicate app] in Henter. rewrite app_nil_r in Henter.
  unfold initialSystem. rewrite Henter. rewrite app_nil_r. cbn [Nat.add].
  match goal with |- context [runSchedule _ ?s'] =>
    destruct (reset_phase n 0 s' eq_refl) as [Hc Hi] end.
  cbn [constructions] in Hc, Hi. split; [exact Hc|exact Hi].
Qed.

Lemma run_stuck (i : nat) (rest : list nat) (s : System) :
  stepThread i s = None -> runSchedule (i :: rest) s = runSchedule rest s.
Proof. intros H. simpl. rewrite H. reflexivity. Qed.

Ltac stuck_middle :=
  unfold stepThread; cbn [threads]; rewrite lookup_middle; reflexivity.

(** The first caller, alone: six moves build the registry and return it. *)
Lemma first_caller (back : list Thread) :
  runSchedule (replicate 6 0)
    {| instance := None; constructions := 0; destroyed := [];
       threads := {| pc := OuterTest; mutexLocked := false |} :: back |}
  = {| instance := Some 0; constructions := 1; destroyed := [];
       threads := {| pc := Finished (Some 0); mutexLocked := false |} :: back |}.
Proof.
  change (replicate 6 0) with [0; 0; 0; 0; 0; 0].
  change ({| pc := OuterTest; mutexLocked := false |} :: back)
    with (replicate 0 {| pc := OuterTest; mutexLocked := false |}
          ++ {| pc := OuterTest; mutexLocked := false |} :: back).
  do 6 (erewrite run_cons by step_middle).
  reflexivity.
Qed.

(** A later caller, alone: it finds the registry at the outer test. *)
Lemma later_caller (k : nat) (back : list Thread) :
  runSchedule (replicate 6 k)
    {| instance := Some 0; constructions := 1; destroyed := [];
       threads := replicate k {| pc := Finished (Some 0); mutexLocked := false |}
                  ++ {| pc := OuterTest; mutexLocked := false |} :: back |}
  = {| instance := Some 0; constructions := 1; destroyed := [];
       threads := replicate k {| pc := Finished (Some 0); mutexLocked := false |}
                  ++ {| pc := Finished (Some 0); mutexLocked := false |} :: back |}.
Proof.
  change (replicate 6 k) with [k; k; k; k; k; k].
  do 2 (erewrite run_cons by step_middle).
  do 4 (rewrite run_stuck by stuck_middle).
  reflexivity.
Qed.

Lemma later_callers (m k : nat) :
  runSchedule (flat_map (fun i => replicate 6 i) (seq k m))
    {| instance := Some 0; constructions := 1; destroyed := [];
       threads := replicate k {| pc := Finished (Some 0); mutexLocked := false |}
                  ++ replicate m {| pc := OuterTest; mutexLocked := false |} |}
  = {| instance := Some 0; constructions := 1; destroyed := [];
       threads := replicate (k + m) {| pc := Finished (Some 0); mutexLocked := false |} |}.
Proof.
  revert k. induction m as [|m IH]; intros k.
  - simpl. rewrite Nat.add_0_r, app_nil_r. reflexivity.
  - change (flat_map (fun i => replicate 6 i) (seq k (S m)))
      with (replicate 6 k ++ flat_map (fun i => replicate 6 i) (seq (S k) m)).
    rewrite runSchedule_app.
    change (replicate (S m) {| pc := OuterTest; mutexLocked := false |})
      with ({| pc := OuterTest; mutexLocked := false |}
            :: replicate m {| pc := OuterTest; mutexLocked := false |}).
    rewrite later_caller, shift_one, (IH (S k)).
    replace (S k + m) with (k + S m) by lia. reflexivity.
Qed.

Lemma results_finished (n : nat) (r : option nat) :
  omap (fun t => match pc t with Finished x => Some x | _ => None end)
    (replicate n {| pc := Finished r; mutexLocked := false |})
  = replicate n r.
Proof. induction n as [|n IH]; simpl; [reflexivity|]. f_equal. exact IH. Qed.

(** X21.  Callers of [getInstancePointer] that do not overlap, however
    many, share one registry: when each thread runs the function to its
    end before the next one starts, the constructor runs once, no registry
    is released and every caller gets the same object. *)
Theorem getInstancePointer_one_by_one (n : nat) :
  0 < n ->
  constructions (runSchedule (oneByOne n) (initialSystem n)) = 1 /\
  destroyed (runSchedule (oneByOne n) (initialSystem n)) = [] /\
  results (runSchedule (oneByOne n) (initialSystem n)) = replicate n (Some 0).
Proof.
  intros Hn. destruct n as [|n]; [lia|]. clear Hn.
  unfold oneByOne, initialSystem.
  change (flat_map (fun i => replicate 6 i) (seq 0 (S n)))
    with (replicate 6 0 ++ flat_map (fun i => replicate 6 i) (seq 1 n)).
  rewrite runSchedule_app.
  change (replicate (S n) {| pc := OuterTest; mutexLocked := false |})
    with ({| pc := OuterTest; mutexLocked := false |}
          :: replicate n {| pc := OuterTest; mutexLocked := false |}).
  rewrite first_caller.
  pose proof (later_callers n 1) as Hrest.
  change (replicate 1 {| pc := Finished (Some 0); mutexLocked := false |})
    with [{| pc := Finished (Some 0); mutexLocked := false |}] in Hrest.
  cbn [app] in Hrest.
  rewrite Hrest. unfold results. cbn [constructions destroyed threads].
  rewrite results_finished. auto.
Qed.

(** ** Concrete runs of the further properties *)

Ltac by_levels :=
  unfold sinkRotating, sinkWarn, sinkPlain, sinkFull, sinkNoPath, sinkYear,
    newQLoggerWriterAt, newQLoggerWriter, setFileSizeLimit, fileSizeLimit,
    TraceLevel, DebugLevel, InfoLevel, WarnLevel, ErrorLevel, FatalLevel;
  simpl; lia.

Lemma add_then_logWriter_witness :
  fst (logWriter "ch" (fst (add "/var/log/a.log" "ch" InfoLevel newQLoggerManager world0)))
  = Some {| m_filePath := "/var/log/a.log"; m_fileSizeLimit := 0%Z;
            m_saveDatetime := true; m_datetimeFormat := "yyyy-MM-dd-hh-mm-ss";
            m_level := InfoLevel |}.
Proof.
  apply (add_then_logWriter "/var/log/a.log" "ch" InfoLevel newQLoggerManager world0).
  vm_compute. reflexivity.
Defined.

Lemma remove_then_logWriter_witness :
  fst (logWriter "ch" (remove "ch" registryCh)) = None /\
  remove "ghost" registryCh = registryCh.
Proof.
  destruct (remove_then_logWriter "ch" registryCh) as (Hgone & _ & _).
  destruct (remove_then_logWriter "ghost" registryCh) as (_ & _ & Hsame).
  split; [exact Hgone|]. apply Hsame. vm_compute. reflexivity.
Defined.

Lemma add_then_remove_witness :
  remove "other" (fst (add "/var/log/b.log" "other" DebugLevel registryCh world0))
  = registryCh.
Proof.
  apply (add_then_remove "/var/log/b.log" "other" DebugLevel registryCh world0).
  vm_compute. reflexivity.
Defined.

Lemma reachable_lookup_iff_key_witness :
  is_Some (m_loggers (fst (add "a.log" "ch" DebugLevel newQLoggerManager world0)) !! "ch")
  <-> is_Some (fst (logWriter "ch"
                      (fst (add "a.log" "ch" DebugLevel newQLoggerManager world0)))).
Proof.
  apply reachable_lookup_iff_key.
  apply (reachable_step newQLoggerManager); [apply reachable_new|apply step_add].
Defined.

Lemma setLimitSize_registered_witness :
  loggersOf (setLimitSize 4096 "ch" processCh) !! "ch"
  = Some (Some {| m_filePath := "/var/log/app.log"; m_fileSizeLimit := 4096%Z;
                  m_saveDatetime := true; m_datetimeFormat := DATE_FORMAT;
                  m_level := WarnLevel |}) /\
  world (setLimitSize 4096 "ch" processCh) = world0.
Proof.
  assert (loggersOf processCh !! "ch" = Some (Some sinkWarn)) as H
    by (vm_compute; reflexivity).
  destruct (setLimitSize_registered 4096 "ch" processCh sinkWarn H) as (Hsink & _ & Hworld).
  split; [exact Hsink|exact Hworld].
Defined.

Lemma setLimitSize_unknown_witness :
  world (setLimitSize 4096 "ghost" processCh)
  = qDebug "QLogger : ghost n'est pas enregistré dans QLoggerManager." world0.
Proof.
  assert (~ registered "ghost" processCh) as Hnot.
  { intros [lw Hlw]. vm_compute in Hlw. discriminate Hlw. }
  exact (proj1 (setLimitSize_unknown 4096 "ghost" processCh Hnot)).
Defined.

Lemma log_below_level_identity_witness :
  log numericToString false "ch" "x" InfoLevel processCh = processCh.
Proof.
  apply (log_below_level_identity numericToString false "ch" "x" InfoLevel
           processCh registryCh sinkWarn).
  - reflexivity.
  - vm_compute. reflexivity.
  - by_levels.
Defined.

Lemma getInstance_idempotent_witness :
  fst (getInstance {| m_instance := None; world := world0 |}) = newQLoggerManager.
Proof.
  destruct (getInstance_idempotent {| m_instance := None; world := world0 |})
    as (_ & _ & _ & _ & Hnew).
  apply Hnew. reflexivity.
Defined.

Lemma write_rotates_then_starts_afresh_witness :
  files (snd (write numericToString false sinkRotating "new" InfoLevel worldFull))
    !! "/var/log/app_05012024134509.1.log" = Some "0123456789" /\
  files (snd (write numericToString false sinkRotating "new" InfoLevel worldFull))
    !! "/var/log/app.1.log" = Some ("2024-01-05-13-45-10 : info : new" +:+ endl).
Proof.
  assert ((m_level sinkRotating <= InfoLevel)%Z) as H1
    by by_levels.
  assert (isEmpty (m_filePath sinkRotating) = false) as H2 by reflexivity.
  assert (denied worldFull !! fileKey sinkRotating worldFull = None) as H3
    by (vm_compute; reflexivity).
  assert (files worldFull !! fileKey sinkRotating worldFull = Some "0123456789") as H4
    by (vm_compute; reflexivity).
  assert ((0 < fileSizeLimit sinkRotating <= Z.of_nat (String.length "0123456789"))%Z)
    as H5 by by_levels.
  assert (files worldFull
            !! absoluteFilePath worldFull
                 (rotatedPath numericToString sinkRotating
                    (clock worldFull (ticks worldFull)) worldFull) = None) as H6
    by (vm_compute; reflexivity).
  destruct (write_rotates_then_starts_afresh numericToString false sinkRotating "new"
              InfoLevel worldFull "0123456789" H1 H2 H3 H4 H5 H6) as (Hold & Hnew & _).
  split; [exact Hold|exact Hnew].
Defined.

Lemma write_twice_appends_in_order_witness :
  files (snd (write numericToString false sinkPlain "two" FatalLevel
                (snd (write numericToString false sinkPlain "one" ErrorLevel world0))))
    !! "/var/log/app.log"
  = Some ("error : one" +:+ endl +:+ "fatal : two" +:+ endl).
Proof.
  assert ((m_level sinkPlain <= ErrorLevel)%Z) as H1
    by by_levels.
  assert ((m_level sinkPlain <= FatalLevel)%Z) as H2
    by by_levels.
  assert (isEmpty (m_filePath sinkPlain) = false) as H3 by reflexivity.
  assert (denied world0 !! fileKey sinkPlain world0 = None) as H4
    by (vm_compute; reflexivity).
  assert ((fileSizeLimit sinkPlain <= 0)%Z) as H5
    by by_levels.
  rewrite (write_twice_appends_in_order numericToString false sinkPlain "one" "two"
             ErrorLevel FatalLevel world0 H1 H2 H3 H4 H5).
  vm_compute. reflexivity.
Defined.

Lemma write_keeps_other_files_witness :
  files (snd (write numericToString false sinkWarn "y" ErrorLevel worldFull))
    !! "/var/log/app.1.log" = Some "0123456789".
Proof.
  apply (write_keeps_other_files numericToString false sinkWarn "y" ErrorLevel worldFull).
  - vm_compute. discriminate.
  - vm_compute. reflexivity.
Defined.

Lemma write_console_on_success_witness :
  console (snd (write numericToString true sinkPlain "y" ErrorLevel world0))
  = ["error : y"] /\
  console (snd (write numericToString false sinkPlain "y" ErrorLevel world0)) = [].
Proof.
  assert ((m_level sinkPlain <= ErrorLevel)%Z) as H1
    by by_levels.
  assert (isEmpty (m_filePath sinkPlain) = false) as H2 by reflexivity.
  assert (denied world0 !! fileKey sinkPlain world0 = None) as H3
    by (vm_compute; reflexivity).
  split.
  - rewrite (write_console_on_success numericToString true sinkPlain "y" ErrorLevel
               world0 H1 H2 H3). reflexivity.
  - rewrite (write_console_on_success numericToString false sinkPlain "y" ErrorLevel
               world0 H1 H2 H3). reflexivity.
Defined.


Lemma levelToString_injective_witness :
  (levelToString WarnLevel = levelToString WarnLevel -> WarnLevel = WarnLevel) /\
  levelToString 6%Z = "INVALID".
Proof.
  destruct (levelToString_injective WarnLevel WarnLevel) as (Hinj & _).
  destruct (levelToString_injective 6%Z 6%Z) as (_ & Hout).
  split.
  - apply Hinj; by_levels.
  - apply Hout. right. lia.
Defined.

Lemma rotation_target_differs_witness :
  absoluteFilePath worldFull
    (rotatedPath numericToString sinkRotating (clock0 0) worldFull)
  <> fileKey sinkRotating worldFull.
Proof.
  apply (rotation_target_differs numericToString sinkRotating (clock0 0) worldFull).
  vm_compute. reflexivity.
Defined.

Lemma add_then_log_witness :
  files (world (log numericToString false "ch" "hello" InfoLevel
                  {| m_instance :=
                       Some (fst (add "/var/log/a.log" "ch" DebugLevel
                                    newQLoggerManager world0));
                     world := world0 |}))
    !! "/var/log/a.log"
  = Some ("2024-01-05-13-45-09 : info : hello" +:+ endl).
Proof.
  rewrite (add_then_log numericToString false "/var/log/a.log" "ch" "hello"
             DebugLevel InfoLevel newQLoggerManager world0).
  - vm_compute. reflexivity.
  - vm_compute. reflexivity.
  - reflexivity.
  - by_levels.
  - vm_compute. reflexivity.
Defined.

Lemma local_mutex_never_blocks_witness :
  is_Some (stepThread 1 (runSchedule [0; 1; 0] (initialSystem 2))).
Proof.
  apply (local_mutex_never_blocks 2 [0; 1; 0] 1 {| pc := Lock; mutexLocked := false |}).
  - vm_compute. reflexivity.
  - intros r. simpl. discriminate.
Defined.

Lemma getInstancePointer_race_all_witness :
  instance (runSchedule (raceAll 3) (initialSystem 3)) = Some 2.
Proof.
  apply (proj2 (getInstancePointer_race_all 3)). lia.
Defined.

Lemma getInstancePointer_one_by_one_witness :
  constructions (runSchedule (oneByOne 3) (initialSystem 3)) = 1 /\
  destroyed (runSchedule (oneByOne 3) (initialSystem 3)) = [] /\
  results (runSchedule (oneByOne 3) (initialSystem 3)) = replicate 3 (Some 0).
Proof.
  apply (getInstancePointer_one_by_one 3). lia.
Defined.

Lemma log_delegates_to_write_witness :
  world (log numericToString false "ch" "y" ErrorLevel processCh)
  = snd (write numericToString false sinkWarn "y" ErrorLevel world0).
Proof.
  apply (log_delegates_to_write numericToString false "ch" "y" ErrorLevel
           processCh registryCh sinkWarn).
  - reflexivity.
  - vm_compute. reflexivity.
Defined.


Lemma facade_writes_own_level_witness :
  exists before : string,
    files (world (error numericToString false "y" "ch" processCh)) !! "/var/log/app.log"
    = Some (before +:+ "error" +:+ " : " +:+ "y" +:+ endl).
Proof.
  assert (m_instance processCh = Some registryCh) as H0 by reflexivity.
  assert (m_loggers registryCh !! "ch" = Some (Some sinkWarn)) as H0'
    by (vm_compute; reflexivity).
  assert (isEmpty (m_filePath sinkWarn) = false) as H2 by reflexivity.
  assert (denied (world processCh) !! fileKey sinkWarn (world processCh) = None)
    as H3 by (vm_compute; reflexivity).
  assert ((fileSizeLimit sinkWarn <= 0)%Z) as H4
    by by_levels.
  destruct (facade_writes_own_level numericToString false "y" "ch" processCh
              registryCh sinkWarn H0 H0' H2 H3 H4) as (_ & _ & _ & _ & Herror & _).
  apply Herror. unfold sinkWarn, newQLoggerWriterAt, WarnLevel, ErrorLevel. simpl. lia.
Defined.
